(** * MTGA collection tracker: log extraction and inventory reconciliation

    A shallow embedding of [src/parser.py], [src/store.py], [src/tracker.py],
    [src/mapping.py], [src/tailer.py] and [src/exporter.py], followed by the
    properties of the specification that are settled on it.

    Conventions of the embedding:
    - Python [int] is [Z]; a [dict] keyed by item id is a [gmap Z _],
      which does not record the order of insertion: where a loop over a
      dict leaves its order behind (the rows queued for one event), the
      properties speak of the rows up to their order;
    - Python [str] is [string] (bytes of the UTF-8 text); case mapping of
      keys is the ASCII one;
    - an exception is a value [Raise e] of the result type [res], or the
      second component of a handler's outcome;
    - the SQLite tables of the store are finite maps and a list; where the
      pending queue is written, the driver refusing a parameter it cannot
      bind (a value of no SQLite type, an integer outside 64 bits) is
      modelled; the ids and quantities of the card table are taken to be
      within 64 bits, and I/O failures are not modelled. *)

From stdpp Require Import gmap strings list fin_maps sorting pretty.
From Stdlib Require Import ZArith Ascii String Lia.

#[local] Set Warnings "-register-all".
Open Scope Z_scope.

(** ** Python values and exceptions *)

Module Py.

(** [SqliteError] stands for the errors of the [sqlite3] driver
    ([sqlite3.Error]: a parameter it cannot bind, a violated constraint). *)
Inductive exn := ValueError | TypeError | OverflowError | SqliteError.

Inductive res (A : Type) : Type :=
| Ok (a : A)
| Raise (e : exn).
Arguments Ok {A} a.
Arguments Raise {A} e.

Definition bind {A B} (m : res A) (k : A -> res B) : res B :=
  match m with
  | Ok a => k a
  | Raise e => Raise e
  end.

(** A double as seen by [int(..)] and by truthiness: the rational it
    denotes, an infinity, or a NaN. *)
Inductive pyfloat :=
| FFinite (num : Z) (den : positive)
| FInf (negative : bool)
| FNaN.

(** A decoded JSON document, as [json.loads] builds it. Objects keep their
    items in insertion order. *)
Inductive json :=
| JNull
| JBool (b : bool)
| JInt (z : Z)
| JFloat (f : pyfloat)
| JStr (s : string)
| JList (items : list json)
| JDict (items : list (string * json)).

Definition is_upper (c : ascii) : bool :=
  let n := nat_of_ascii c in (65 <=? n)%nat && (n <=? 90)%nat.
Definition is_lower (c : ascii) : bool :=
  let n := nat_of_ascii c in (97 <=? n)%nat && (n <=? 122)%nat.
Definition is_digit (c : ascii) : bool :=
  let n := nat_of_ascii c in (48 <=? n)%nat && (n <=? 57)%nat.
(** The characters [int(..)] skips around the digits of an ASCII string:
    TAB..CR and SPACE. *)
Definition is_space (c : ascii) : bool :=
  let n := nat_of_ascii c in
  ((9 <=? n)%nat && (n <=? 13)%nat) || (n =? 32)%nat.

Definition lower_char (c : ascii) : ascii :=
  if is_upper c then ascii_of_nat (nat_of_ascii c + 32) else c.
Definition upper_char (c : ascii) : ascii :=
  if is_lower c then ascii_of_nat (nat_of_ascii c - 32) else c.

Fixpoint lower (s : string) : string :=
  match s with
  | EmptyString => EmptyString
  | String c rest => String (lower_char c) (lower rest)
  end.
Fixpoint upper (s : string) : string :=
  match s with
  | EmptyString => EmptyString
  | String c rest => String (upper_char c) (upper rest)
  end.
Definition capitalize (s : string) : string :=
  match s with
  | EmptyString => EmptyString
  | String c rest => String (upper_char c) (lower rest)
  end.

Fixpoint lstrip (s : string) : string :=
  match s with
  | String c rest => if is_space c then lstrip rest else s
  | EmptyString => EmptyString
  end.
Fixpoint rstrip (s : string) : string :=
  match s with
  | EmptyString => EmptyString
  | String c rest =>
      match rstrip rest with
      | EmptyString => if is_space c then EmptyString else String c EmptyString
      | r => String c r
      end
  end.

Definition digit_val (c : ascii) : Z := Z.of_nat (nat_of_ascii c - 48).

(** Decimal digits, a single underscore allowed between two digits. *)
Fixpoint parse_digits (acc : Z) (s : string) : option Z :=
  match s with
  | EmptyString => Some acc
  | String c rest =>
      if is_digit c then parse_digits (10 * acc + digit_val c) rest
      else if Ascii.eqb c "_"%char then
        match rest with
        | String d _ => if is_digit d then parse_digits acc rest else None
        | EmptyString => None
        end
      else None
  end.

Definition parse_unsigned (s : string) : option Z :=
  match s with
  | String c _ => if is_digit c then parse_digits 0 s else None
  | EmptyString => None
  end.

(** [int(s)] for a string: surrounding whitespace, an optional sign,
    decimal digits. [None] stands for the [ValueError]. *)
Definition int_of_str (s : string) : option Z :=
  match rstrip (lstrip s) with
  | String c rest =>
      if Ascii.eqb c "-"%char then Z.opp <$> parse_unsigned rest
      else if Ascii.eqb c "+"%char then parse_unsigned rest
      else parse_unsigned (String c rest)
  | EmptyString => None
  end.

(** The builtin [int(value)] on a decoded JSON value. *)
Definition int (v : json) : res Z :=
  match v with
  | JNull => Raise TypeError
  | JBool b => Ok (if b then 1 else 0)
  | JInt z => Ok z
  | JFloat (FFinite n d) => Ok (Z.quot n (Z.pos d))
  | JFloat (FInf _) => Raise OverflowError
  | JFloat FNaN => Raise ValueError
  | JStr s => match int_of_str s with Some z => Ok z | None => Raise ValueError end
  | JList _ => Raise TypeError
  | JDict _ => Raise TypeError
  end.

(** [d.get(key)] / [key in d] on the items of an object. *)
Fixpoint dict_get (key : string) (items : list (string * json)) : option json :=
  match items with
  | [] => None
  | (k, v) :: rest => if String.eqb k key then Some v else dict_get key rest
  end.

(** [d.get(key)] followed by an [is None] test: a stored [null] reads as
    an absent key. *)
Definition get_not_none (key : string) (items : list (string * json)) : option json :=
  match dict_get key items with
  | Some JNull => None
  | r => r
  end.

(** Truthiness, as used by [x or default]. *)
Definition truthy (v : json) : bool :=
  match v with
  | JNull => false
  | JBool b => b
  | JInt z => negb (z =? 0)
  | JFloat (FFinite n _) => negb (n =? 0)
  | JFloat _ => true
  | JStr s => negb (String.eqb s EmptyString)
  | JList l => match l with [] => false | _ => true end
  | JDict l => match l with [] => false | _ => true end
  end.

End Py.

#[global] Instance res_ret : MRet Py.res := @Py.Ok.
#[global] Instance res_bind : MBind Py.res := fun A B k m => Py.bind m k.

(** ** The extractor ([src/parser.py]) *)

Module Parser.
Import Py.

Definition _SNAPSHOT_KEYS : list string := ["cards"; "ownedcards"]%string.
Definition _DELTA_EVENT_KEYS : list string :=
  ["inventorydelta"; "inventoryupdated"; "boosteropened"; "eventreward";
   "rewardgranted"; "dailywin"; "craftcard"; "upgradecard"; "vaultprogress";
   "vaultreward"; "wildcardgranted"]%string.
Definition _ID_KEYS : list string :=
  ["grpid"; "grp_id"; "titleid"; "title_id"; "arenaid"; "cardid"; "mtgaid"]%string.
Definition _SNAPSHOT_COUNT_KEYS : list string := ["quantity"; "qty"; "count"]%string.
Definition _DELTA_COUNT_KEYS : list string :=
  ["delta"; "quantitydelta"; "change"; "amount"]%string.

(** [key in keys] for a tuple or set of strings. *)
Definition mem (key : string) (keys : list string) : bool :=
  existsb (String.eqb key) keys.
Arguments mem : simpl never.

Inductive Event :=
| SnapshotEvent (cards : gmap Z Z) (source : string) (raw : json)
| DeltaEvent (deltas : gmap Z Z) (source : string) (raw : json).

(** [if d:] for a dict. *)
Definition nonempty (d : gmap Z Z) : bool := negb (bool_decide (d = ∅)).

Definition is_dict (v : json) : bool :=
  match v with JDict _ => true | _ => false end.
Definition items_of (v : json) : list (string * json) :=
  match v with JDict items => items | _ => [] end.

Definition _ensure_list (value : json) : list json :=
  match value with
  | JList items => items
  | _ => [value]
  end.

(** [_extract_json_strings]: the balanced brace spans of a line, left to
    right. [rest] is the unread suffix of [text], [idx] its position. *)
Fixpoint scan_braces (text rest : string) (idx depth : nat) (start : option nat)
  : list string :=
  match rest with
  | EmptyString => []
  | String char rest' =>
      if Ascii.eqb char "{"%char then
        scan_braces text rest' (S idx) (S depth)
          (if (depth =? 0)%nat then Some idx else start)
      else if Ascii.eqb char "}"%char then
        match depth with
        | O => scan_braces text rest' (S idx) O start
        | S O =>
            match start with
            | Some st =>
                substring st (S idx - st) text
                  :: scan_braces text rest' (S idx) O None
            | None => scan_braces text rest' (S idx) O start
            end
        | S d => scan_braces text rest' (S idx) d start
        end
      else scan_braces text rest' (S idx) depth start
  end.

Definition _extract_json_strings (text : string) : list string :=
  scan_braces text text O O None.

(** First loop of [_extract_arena_id]: the first of [keys] present in the
    entry, with its value. *)
Fixpoint first_present (keys : list string) (entry : list (string * json))
  : option json :=
  match keys with
  | [] => None
  | key :: keys' =>
      match dict_get key entry with
      | Some v => Some v
      | None => first_present keys' entry
      end
  end.

(** Second loop: the first item whose lowered key is an id key. *)
Fixpoint first_lowered (entry : list (string * json)) : option json :=
  match entry with
  | [] => None
  | (key, value) :: rest =>
      if mem (lower key) _ID_KEYS then Some value else first_lowered rest
  end.

Definition _extract_arena_id (entry : list (string * json)) : res (option Z) :=
  match first_present _ID_KEYS entry with
  | Some v => z ← int v; Ok (Some z)
  | None =>
      match first_lowered entry with
      | Some v => z ← int v; Ok (Some z)
      | None =>
          match dict_get "id" entry with
          | Some v =>
              match int v with
              | Ok z => Ok (Some z)
              | Raise TypeError | Raise ValueError => Ok None
              | Raise e => Raise e
              end
          | None => Ok None
          end
      end
  end.

Fixpoint _extract_first_int (entry : list (string * json)) (keys : list string)
  : res (option Z) :=
  match keys with
  | [] => Ok None
  | key :: keys' =>
      let value := get_not_none key entry in
      let value := match value with
                   | None => get_not_none (capitalize key) entry
                   | _ => value end in
      let value := match value with
                   | None => get_not_none (upper key) entry
                   | _ => value end in
      match value with
      | None => _extract_first_int entry keys'
      | Some v =>
          match int v with
          | Ok z => Ok (Some z)
          | Raise TypeError | Raise ValueError => _extract_first_int entry keys'
          | Raise e => Raise e
          end
      end
  end.

(** [_collect_card_like_entries]: every candidate entry below [value] with
    the sign its enclosing key gives it. *)
Fixpoint _collect_card_like_entries (value : json) : list (json * Z) :=
  let results :=
    match value with
    | JDict items =>
        (fix over_items (items : list (string * json)) : list (json * Z) :=
           match items with
           | [] => []
           | (key, inner) :: rest =>
               let lower := lower key in
               (if mem lower ["adds"; "addedcards"; "grantedcards"]%string then
                  map (fun item => (item, 1)) (_ensure_list inner)
                else if mem lower ["removes"; "removedcards"; "spentcards"]%string then
                  map (fun item => (item, -1)) (_ensure_list inner)
                else if mem lower ["changes"; "cards"; "deltas"]%string then
                  map (fun item => (item, 1)) (_ensure_list inner)
                else _collect_card_like_entries inner)
               ++ over_items rest
           end) items
    | JList items =>
        (fix over_list (items : list json) : list (json * Z) :=
           match items with
           | [] => []
           | item :: rest => _collect_card_like_entries item ++ over_list rest
           end) items
    | _ => []
    end in
  List.filter (fun '(entry, _) => is_dict entry) results.

(** The change one entry contributes: [None] when the entry is skipped for
    want of an id or of a count. *)
Definition entry_change (entry : list (string * json)) (multiplier : Z)
  : res (option (Z * Z)) :=
  arena_id ← _extract_arena_id entry;
  match arena_id with
  | None => Ok None
  | Some arena_id =>
      delta ← _extract_first_int entry _DELTA_COUNT_KEYS;
      match delta with
      | Some delta => Ok (Some (arena_id, delta * multiplier))
      | None =>
          quantity ← _extract_first_int entry _SNAPSHOT_COUNT_KEYS;
          match quantity with
          | None => Ok None
          | Some quantity => Ok (Some (arena_id, quantity * multiplier))
          end
      end
  end.

(** The loop of [_normalise_deltas] over the collected entries. *)
Fixpoint normalise_loop (entries : list (json * Z)) (deltas : gmap Z Z)
  : res (gmap Z Z) :=
  match entries with
  | [] => Ok deltas
  | (entry, multiplier) :: rest =>
      c ← entry_change (items_of entry) multiplier;
      match c with
      | None => normalise_loop rest deltas
      | Some (arena_id, change) =>
          if change =? 0 then normalise_loop rest deltas
          else normalise_loop rest
                 (<[arena_id := default 0 (deltas !! arena_id) + change]> deltas)
      end
  end.

Definition _normalise_deltas (value : json) : res (gmap Z Z) :=
  normalise_loop (_collect_card_like_entries value) ∅.

Fixpoint _walk_dict (obj : json) : list (string * json) :=
  match obj with
  | JDict items =>
      (fix over_items (items : list (string * json)) : list (string * json) :=
         match items with
         | [] => []
         | (key, value) :: rest =>
             (lower key, value) :: _walk_dict value ++ over_items rest
         end) items
  | JList items =>
      (fix over_list (items : list json) : list (string * json) :=
         match items with
         | [] => []
         | item :: rest => _walk_dict item ++ over_list rest
         end) items
  | _ => []
  end.

(** The loop of [_extract_delta_events] over the walked pairs. *)
Fixpoint delta_events_loop (pairs : list (string * json))
  : res (list (string * gmap Z Z)) :=
  match pairs with
  | [] => Ok []
  | (key, value) :: rest =>
      if mem key _DELTA_EVENT_KEYS then
        deltas ← _normalise_deltas value;
        tail ← delta_events_loop rest;
        Ok (if nonempty deltas then (key, deltas) :: tail else tail)
      else delta_events_loop rest
  end.

Definition _extract_delta_events (obj : json) : res (list (string * gmap Z Z)) :=
  delta_events_loop (_walk_dict obj).

Fixpoint _find_card_entries (obj : json) (keys : list string)
  : list (list (string * json)) :=
  let key_set := map lower keys in
  match obj with
  | JDict items =>
      (fix over_items (items : list (string * json)) :=
         match items with
         | [] => []
         | (key, value) :: rest =>
             (if mem (lower key) key_set then
                omap (fun item => match item with
                                  | JDict e => Some e
                                  | _ => None end) (_ensure_list value)
              else _find_card_entries value keys)
             ++ over_items rest
         end) items
  | JList items =>
      (fix over_list (items : list json) :=
         match items with
         | [] => []
         | item :: rest => _find_card_entries item keys ++ over_list rest
         end) items
  | _ => []
  end.

(** The loop of [_extract_snapshot_cards] over the found entries. *)
Fixpoint snapshot_loop (entries : list (list (string * json))) (cards : gmap Z Z)
  : res (gmap Z Z) :=
  match entries with
  | [] => Ok cards
  | entry :: rest =>
      arena_id ← _extract_arena_id entry;
      match arena_id with
      | None => snapshot_loop rest cards
      | Some arena_id =>
          quantity ← _extract_first_int entry _SNAPSHOT_COUNT_KEYS;
          match quantity with
          | None => snapshot_loop rest cards
          | Some quantity =>
              snapshot_loop rest (<[arena_id := Z.max quantity 0]> cards)
          end
      end
  end.

Definition _extract_snapshot_cards (obj : json) : res (gmap Z Z) :=
  snapshot_loop (_find_card_entries obj _SNAPSHOT_KEYS) ∅.

Definition _parse_json_object (obj : json) : res (list Event) :=
  if is_dict obj then
    found ← _extract_delta_events obj;
    let delta_events :=
      map (fun '(source, deltas) => DeltaEvent deltas source obj)
          (List.filter (fun '(_, deltas) => nonempty deltas) found) in
    match delta_events with
    | _ :: _ => Ok delta_events
    | [] =>
        snapshot_cards ← _extract_snapshot_cards obj;
        if nonempty snapshot_cards
        then Ok [SnapshotEvent snapshot_cards "snapshot" obj]
        else Ok []
    end
  else Ok [].

Section WithDecoder.
(** [jsonutil.loads] (the [json] or [orjson] decoder) is a library
    function: taken as given. Its decode error is a [ValueError]. *)
Variable loads : string -> res json.

Fixpoint parse_snippets (snippets : list string) (events : list Event)
  : res (list Event) :=
  match snippets with
  | [] => Ok events
  | snippet :: rest =>
      match loads snippet with
      | Raise ValueError => parse_snippets rest events
      | Raise e => Raise e
      | Ok data =>
          found ← _parse_json_object data;
          parse_snippets rest (events ++ found)
      end
  end.

Definition parse_line (line : string) : res (list Event) :=
  parse_snippets (_extract_json_strings line) [].
End WithDecoder.

End Parser.

(** ** The durable store ([src/store.py]) *)

Module Store.

(** A row of [pending_deltas]. [ts] is the value bound to the column
    [ts TEXT]; the table keeps a number as its text. *)
Record PendingDelta := mkPendingDelta {
  arena_id : Z;
  delta : Z;
  ts : Py.json;
}.

(** The four tables: [cards] and [metadata] keyed by item id, the
    key/value [state] table, and the [pending_deltas] log in rowid order. *)
Record t := mkStore {
  cards : gmap Z Z;
  metadata : gmap Z (string * string * string * string);
  state : gmap string string;
  pending_deltas : list PendingDelta;
}.

Definition empty : t :=
  {| cards := ∅; metadata := ∅; state := ∅; pending_deltas := [] |}.

Definition with_cards (c : gmap Z Z) (s : t) : t :=
  {| cards := c; metadata := metadata s; state := state s;
     pending_deltas := pending_deltas s |}.
Definition with_pending (p : list PendingDelta) (s : t) : t :=
  {| cards := cards s; metadata := metadata s; state := state s;
     pending_deltas := p |}.

(** [DELETE FROM cards], then one [INSERT] per item of the dict. *)
Definition replace_cards (new_cards : gmap Z Z) (s : t) : t :=
  with_cards
    (map_fold (fun aid qty table => <[aid := qty]> table) ∅ new_cards) s.

(** One statement of [apply_deltas]:
    [INSERT .. VALUES(arena_id, delta) ON CONFLICT(arena_id)
     DO UPDATE SET quantity = MAX(quantity + excluded.quantity, 0)]. *)
Definition upsert_delta (arena_id delta : Z) (table : gmap Z Z) : gmap Z Z :=
  match table !! arena_id with
  | None => <[arena_id := delta]> table
  | Some quantity => <[arena_id := Z.max (quantity + delta) 0]> table
  end.

Definition apply_deltas (deltas : gmap Z Z) (s : t) : t :=
  if bool_decide (deltas = ∅) then s
  else with_cards (map_fold upsert_delta (cards s) deltas) s.

Definition set_card_quantity (arena_id quantity : Z) (s : t) : t :=
  with_cards (<[arena_id := quantity]> (cards s)) s.

Definition get_all_cards (s : t) : gmap Z Z := cards s.

Definition upsert_metadata (rows : list (Z * string * string * string * string))
    (s : t) : t :=
  {| cards := cards s;
     metadata := foldl (fun table '(aid, name, set_code, rarity, updated_at) =>
                          <[aid := (name, set_code, rarity, updated_at)]> table)
                       (metadata s) rows;
     state := state s; pending_deltas := pending_deltas s |}.

Definition get_state (key : string) (default : option string) (s : t)
  : option string :=
  match state s !! key with
  | Some value => Some value
  | None => default
  end.

Definition set_state (key value : string) (s : t) : t :=
  {| cards := cards s; metadata := metadata s;
     state := <[key := value]> (state s);
     pending_deltas := pending_deltas s |}.

(** SQLite integers are 64-bit: the driver raises [OverflowError] when it
    binds a Python [int] outside that range. *)
Definition int64 (z : Z) : bool := (- 2 ^ 63 <=? z) && (z <? 2 ^ 63).

(** What the insert raises on account of [ts], bound to the column
    [ts TEXT NOT NULL]: strings, booleans, floats and 64-bit integers are
    stored; a list or an object has no adapter, and [None] or a NaN would be
    stored as NULL, which the column refuses. *)
Definition bind_ts (ts : Py.json) : option Py.exn :=
  match ts with
  | Py.JStr _ | Py.JBool _ => None
  | Py.JInt z => if int64 z then None else Some Py.OverflowError
  | Py.JFloat Py.FNaN => Some Py.SqliteError
  | Py.JFloat _ => None
  | Py.JNull | Py.JList _ | Py.JDict _ => Some Py.SqliteError
  end.

(** The insert of one queue row, its parameters bound in order; a refused
    insert leaves the table as it was. *)
Definition add_pending_delta (arena_id delta : Z) (ts : Py.json) (s : t)
  : Py.res t :=
  if negb (int64 arena_id && int64 delta) then Py.Raise Py.OverflowError
  else
    match bind_ts ts with
    | None =>
        Py.Ok (with_pending
                 (pending_deltas s ++ [mkPendingDelta arena_id delta ts]) s)
    | Some e => Py.Raise e
    end.

Definition iter_pending_deltas (s : t) : list PendingDelta := pending_deltas s.

Definition clear_pending_deltas (s : t) : t := with_pending [] s.

(** [self.get_state("baseline", "missing") or "missing"]. *)
Definition baseline_state (s : t) : string :=
  match get_state "baseline" (Some "missing"%string) s with
  | Some value => if String.eqb value EmptyString then "missing" else value
  | None => "missing"
  end.

Definition mark_baseline_complete (s : t) : t := set_state "baseline" "complete" s.
Definition mark_baseline_missing (s : t) : t := set_state "baseline" "missing" s.

(** [get_metadata_map]: name, set code and rarity of every row. *)
Definition get_metadata_map (s : t) : gmap Z (string * string * string) :=
  (fun '(name, set_code, rarity, _) => (name, set_code, rarity)) <$> metadata s.

End Store.

(** ** The reconciler ([src/tracker.py]) *)

Module Tracker.
Import Py.

(** The tracker's durable store, and the sequence of exports made so far,
    each recorded by the card table it wrote out. *)
Record t := mkTracker {
  store : Store.t;
  exports : list (gmap Z Z);
}.

Definition init : t := {| store := Store.empty; exports := [] |}.

Definition on_store (f : Store.t -> Store.t) (w : t) : t :=
  {| store := f (store w); exports := exports w |}.

(** [self.exporter.export()]. *)
Definition export (w : t) : t :=
  {| store := store w;
     exports := exports w ++ [Store.get_all_cards (store w)] |}.

(** The aggregation loop of [_apply_pending_deltas]. *)
Definition aggregate_pending (pending : list Store.PendingDelta) : gmap Z Z :=
  foldl (fun aggregate item =>
           <[Store.arena_id item :=
               default 0 (aggregate !! Store.arena_id item) + Store.delta item]>
             aggregate)
        ∅ pending.

Definition _apply_pending_deltas (s : Store.t) : Store.t :=
  let pending := Store.iter_pending_deltas s in
  match pending with
  | [] => s
  | _ :: _ =>
      Store.clear_pending_deltas
        (Store.apply_deltas (aggregate_pending pending) s)
  end.

(** [now] is the reading of the clock, [_utcnow().isoformat()]. *)
Definition _handle_snapshot (cards : gmap Z Z) (now : string) (w : t) : t :=
  let s := Store.replace_cards cards (store w) in
  let s := Store.mark_baseline_complete s in
  let s := Store.set_state "last_snapshot" now s in
  let s := _apply_pending_deltas s in
  export {| store := s; exports := exports w |}.

Definition event_ts (raw : json) (now : string) : json :=
  let timestamp :=
    match raw with
    | JDict items => default JNull (dict_get "timestamp" items)
    | _ => JNull
    end in
  if truthy timestamp then timestamp else JStr now.

(** The queueing loop of [_handle_delta]: one insert per item, stopped by
    the first insert the store refuses. With the store it leaves, the
    exception that escaped, if any. *)
Fixpoint queue_deltas (ts : json) (items : list (Z * Z)) (s : Store.t)
  : Store.t * option exn :=
  match items with
  | [] => (s, None)
  | (arena_id, delta) :: rest =>
      match Store.add_pending_delta arena_id delta ts s with
      | Ok s' => queue_deltas ts rest s'
      | Raise e => (s, Some e)
      end
  end.

(** A handler's outcome: the tracker as it leaves it, and the exception
    that escaped from it, if any. The items of the event are enumerated by
    [map_to_list]; Python enumerates them in insertion order. *)
Definition _handle_delta (deltas : gmap Z Z) (raw : json) (now : string) (w : t)
  : t * option exn :=
  let ts := event_ts raw now in
  if negb (String.eqb (Store.baseline_state (store w)) "complete") then
    let '(s, failure) := queue_deltas ts (map_to_list deltas) (store w) in
    ({| store := s; exports := exports w |}, failure)
  else (export (on_store (Store.apply_deltas deltas) w), None).

Definition handle_event (now : string) (w : t) (event : Parser.Event)
  : t * option exn :=
  match event with
  | Parser.SnapshotEvent cards _ _ => (_handle_snapshot cards now w, None)
  | Parser.DeltaEvent deltas _ raw => _handle_delta deltas raw now w
  end.

(** The loop of [process_line] over the events of a line: an exception
    escaping from a handler ends it. *)
Fixpoint run_events (now : string) (events : list Parser.Event) (w : t)
  : t * option exn :=
  match events with
  | [] => (w, None)
  | event :: rest =>
      match handle_event now w event with
      | (w', None) => run_events now rest w'
      | (w', Some e) => (w', Some e)
      end
  end.

(** The tracker that loop leaves behind, whether or not it was cut short. *)
Definition process_events (now : string) (events : list Parser.Event) (w : t) : t :=
  (run_events now events w).1.

Definition process_line (loads : string -> res json) (now : string)
    (line : string) (w : t) : t * option exn :=
  match Parser.parse_line loads line with
  | Ok events => run_events now events w
  | Raise e => (w, Some e)
  end.

(** A seed file as [csv.DictReader] presents it: the header, and one dict
    per row (a field the row is too short for reads as [None]). *)
Record seed_csv := mkSeed {
  fieldnames : list string;
  rows : list (gmap string string);
}.

Definition header_lower (names : list string) : gmap string string :=
  foldl (fun header name => <[lower name := name]> header) ∅ names.

Fixpoint first_header (keys : list string) (header : gmap string string)
  : option string :=
  match keys with
  | [] => None
  | key :: keys' =>
      match header !! key with
      | Some name => Some name
      | None => first_header keys' header
      end
  end.

Definition int_field (row : gmap string string) (field : string) : res Z :=
  match row !! field with
  | Some text => int (JStr text)
  | None => int JNull
  end.

Fixpoint seed_rows (id_field qty_field : string)
    (rows : list (gmap string string)) (cards : gmap Z Z) : res (gmap Z Z) :=
  match rows with
  | [] => Ok cards
  | row :: rest =>
      arena_id ← int_field row id_field;
      quantity ← int_field row qty_field;
      seed_rows id_field qty_field rest (<[arena_id := quantity]> cards)
  end.

Definition _read_seed_csv (file : seed_csv) : res (gmap Z Z) :=
  let header := header_lower (fieldnames file) in
  let id_field :=
    first_header ["arena_id"; "grpid"; "titleid"; "id"]%string header in
  let qty_field := first_header ["quantity"; "qty"; "count"]%string header in
  match id_field, qty_field with
  | Some id_field, Some qty_field =>
      if String.eqb id_field EmptyString || String.eqb qty_field EmptyString
      then Raise ValueError
      else seed_rows id_field qty_field (rows file) ∅
  | _, _ => Raise ValueError
  end.

Definition seed_from_csv (file : seed_csv) (w : t) : res t :=
  cards ← _read_seed_csv file;
  let s := Store.replace_cards cards (store w) in
  let s := Store.mark_baseline_complete s in
  let s := _apply_pending_deltas s in
  Ok (export {| store := s; exports := exports w |}).

(** [status]: the number of tracked items (as [str] prints it), the
    baseline flag and the time of the last snapshot. *)
Definition status (w : t) : gmap string string :=
  let counts := size (Store.get_all_cards (store w)) in
  let baseline := Store.baseline_state (store w) in
  let last_snapshot :=
    default EmptyString
      (Store.get_state "last_snapshot" (Some EmptyString) (store w)) in
  {[ "cards"%string := pretty counts;
     "baseline"%string := baseline;
     "last_snapshot"%string := last_snapshot ]}.

End Tracker.

(** ** The metadata merger ([src/mapping.py]) *)

Module Mapping.
Import Py.

Section WithStr.
(** The builtin [str(value)], taken as given. *)
Variable str : json -> string.

(** [card.get(key, default)] with the empty string as default. *)
Definition get_or_empty (key : string) (card : list (string * json)) : json :=
  default (JStr EmptyString) (dict_get key card).

Definition _prefer (new current : list (string * json)) : bool :=
  let new_set_type := str (get_or_empty "set_type" new) in
  let cur_set_type := str (get_or_empty "set_type" current) in
  if String.eqb cur_set_type "promo" && negb (String.eqb new_set_type "promo")
  then true
  else if String.eqb new_set_type "promo" && negb (String.eqb cur_set_type "promo")
  then false
  else
    let new_released := str (get_or_empty "released_at" new) in
    let cur_released := str (get_or_empty "released_at" current) in
    String.leb cur_released new_released.

(** The selection loop of [_write_mapping]. *)
Fixpoint choose (mapping : list (list (string * json)))
    (chosen : gmap Z (list (string * json)))
  : res (gmap Z (list (string * json))) :=
  match mapping with
  | [] => Ok chosen
  | card :: rest =>
      match get_not_none "arena_id" card with
      | None => choose rest chosen
      | Some arena_id =>
          arena_id ← int arena_id;
          match chosen !! arena_id with
          | Some current =>
              if negb (_prefer card current) then choose rest chosen
              else choose rest (<[arena_id := card]> chosen)
          | None => choose rest (<[arena_id := card]> chosen)
          end
      end
  end.

Definition row_of (timestamp : string) (entry : Z * list (string * json))
  : Z * string * string * string * string :=
  let '(arena_id, card) := entry in
  (arena_id, str (get_or_empty "name" card), str (get_or_empty "set" card),
   str (get_or_empty "rarity" card), timestamp).

(** [_write_mapping]: the updated store and the number of rows. *)
Definition _write_mapping (mapping : list (list (string * json)))
    (timestamp : string) (s : Store.t) : res (Store.t * nat) :=
  chosen ← choose mapping ∅;
  let rows := map (row_of timestamp) (map_to_list chosen) in
  Ok (match rows with
      | [] => s
      | _ :: _ => Store.upsert_metadata rows s
      end, List.length rows).
End WithStr.

End Mapping.

(** ** The tailer ([src/tailer.py]) *)

Module Tailer.

(** Files are byte strings. The handle is opened in text mode with the
    default newline handling, so LF, CR LF and a lone CR each end a line and
    are read as one LF. Decoding is modelled for ASCII content, where it
    changes nothing: what [errors="ignore"] does with bytes above 127 is
    not. The time spent in [_sleep] is not modelled either. *)

(** The file system as the tailer sees it: the inode the path names (if
    any) and the bytes of each inode. A renamed or unlinked file keeps its
    inode, so an open handle still reads it. *)
Record fs := mkFs {
  entry : option nat;
  data : nat -> string;
}.

Record FileTailer := mkTailer {
  _offset : nat;
  _inode : option nat;
  _last_size : nat;
}.

(** Where the generator [follow] is suspended: at the top of the outer
    loop, or inside the read loop with an open handle at a position. *)
Inductive point :=
| AtPoll
| InRead (handle : nat) (pos : nat).

Record gen := mkGen {
  self : FileTailer;
  at_point : point;
}.

Definition init : gen :=
  {| self := {| _offset := 0; _inode := None; _last_size := 0 |};
     at_point := AtPoll |}.

Fixpoint drop_bytes (n : nat) (s : string) : string :=
  match n, s with
  | O, _ => s
  | S n', String _ rest => drop_bytes n' rest
  | S _, EmptyString => EmptyString
  end.

(** The first line of [s] as the text layer gives it, its line end
    translated to LF, and the number of bytes it takes up in [s]. *)
Fixpoint first_line (s : string) : string * nat :=
  match s with
  | EmptyString => (EmptyString, O)
  | String c rest =>
      if Ascii.eqb c "010"%char then (String "010"%char EmptyString, 1%nat)
      else if Ascii.eqb c "013"%char then
        match rest with
        | String c' _ =>
            if Ascii.eqb c' "010"%char
            then (String "010"%char EmptyString, 2%nat)
            else (String "010"%char EmptyString, 1%nat)
        | EmptyString => (String "010"%char EmptyString, 1%nat)
        end
      else
        let '(line, consumed) := first_line rest in
        (String c line, S consumed)
  end.

(** [handle.readline()] at position [pos]: the line, and how far the
    handle moves. *)
Definition readline (content : string) (pos : nat) : string * nat :=
  first_line (drop_bytes pos content).

(** [line.rstrip("\n")]. *)
Fixpoint rstrip_newline (s : string) : string :=
  match s with
  | EmptyString => EmptyString
  | String c rest =>
      match rstrip_newline rest with
      | EmptyString =>
          if Ascii.eqb c "010"%char then EmptyString else String c EmptyString
      | r => String c r
      end
  end.

Inductive step_result :=
| Yield (line : string) (g : gen)
| Return
| Continue (g : gen).

(** One move of the generator against the current file system: up to the
    next [yield], [return], or loop edge. [stop] is the value [stop()]
    would give. *)
Definition step (stop : bool) (env : fs) (g : gen) : step_result :=
  match at_point g with
  | AtPoll =>
      if stop then Return
      else
        match entry env with
        | None =>
            Continue {| self := {| _offset := 0; _inode := None;
                                   _last_size := _last_size (self g) |};
                        at_point := AtPoll |}
        | Some inode =>
            let st_size := String.length (data env inode) in
            let file_was_rotated :=
              match _inode (self g) with
              | Some seen => negb (inode =? seen)%nat
              | None => false
              end in
            let size_shrunk := (st_size <? _last_size (self g))%nat in
            let offset :=
              if file_was_rotated || size_shrunk then O else _offset (self g) in
            Continue {| self := {| _offset := offset; _inode := Some inode;
                                   _last_size := st_size |};
                        at_point := InRead inode offset |}
        end
  | InRead handle pos =>
      let '(line, consumed) := readline (data env handle) pos in
      match line with
      | EmptyString =>
          Continue {| self := {| _offset := pos; _inode := _inode (self g);
                                 _last_size := _last_size (self g) |};
                      at_point := AtPoll |}
      | _ =>
          Yield (rstrip_newline line)
                {| self := self g;
                   at_point := InRead handle (pos + consumed) |}
      end
  end.

(** [next(gen)]: run to the next yielded line. [None] when [fuel] moves
    pass without one (the generator is still polling). *)
Fixpoint next (fuel : nat) (stop : bool) (env : fs) (g : gen)
  : option (option string * gen) :=
  match fuel with
  | O => None
  | S fuel' =>
      match step stop env g with
      | Yield line g' => Some (Some line, g')
      | Return => Some (None, g)
      | Continue g' => next fuel' stop env g'
      end
  end.

(** The generator states that runs of [follow] can reach, whatever the
    file system does between moves. *)
Inductive reachable : gen -> Prop :=
| reach_init : reachable init
| reach_yield stop env g line g' :
    reachable g -> step stop env g = Yield line g' -> reachable g'
| reach_continue stop env g g' :
    reachable g -> step stop env g = Continue g' -> reachable g'.

End Tailer.

(** ** The exporter ([src/exporter.py]) *)

Module Exporter.
Import Py.

(** A row of the export: id, quantity, name, set code, rarity. *)
Definition Row : Type := Z * Z * string * string * string.

(** The loop of [export] over the card table: each card with its
    metadata, or with empty strings when it has none. *)
Definition collect_rows (s : Store.t) : list Row :=
  let metadata := Store.get_metadata_map s in
  map (fun '(arena_id, quantity) =>
         let '(name, set_code, rarity) :=
           default (EmptyString, EmptyString, EmptyString) (metadata !! arena_id) in
         (arena_id, quantity, name, set_code, rarity))
      (map_to_list (Store.get_all_cards s)).

(** Names and set codes are arbitrary text, so [str.lower] is taken as it
    is: the library's function, a parameter here. *)
Section WithLower.
Variable lower : string -> string.

(** [lambda row: (row[2].lower(), row[3].lower(), row[0])]. *)
Definition sort_key (row : Row) : string * string * Z :=
  let '(arena_id, _, name, set_code, _) := row in
  (lower name, lower set_code, arena_id).

(** The order of Python on such key tuples: by first component, then by
    second, then by third. *)
Definition key_le (k1 k2 : string * string * Z) : Prop :=
  String.le k1.1.1 k2.1.1
  ∧ (String.le k2.1.1 k1.1.1 →
     String.le k1.1.2 k2.1.2
     ∧ (String.le k2.1.2 k1.1.2 → k1.2 ≤ k2.2)).

Definition row_le (r1 r2 : Row) : Prop := key_le (sort_key r1) (sort_key r2).

#[global] Instance row_le_dec : RelDecision row_le.
Proof. intros r1 r2. unfold row_le, key_le. apply _. Defined.

(** [rows.sort(key=..)]: the rows in ascending key order. The files are
    written from this list; their formatting is the [csv] and [json]
    libraries' and is not modelled. *)
Definition sorted_rows (s : Store.t) : list Row :=
  merge_sort row_le (collect_rows s).

(** The value [export] returns: [len(rows)]. *)
Definition export (s : Store.t) : nat := List.length (sorted_rows s).

End WithLower.

End Exporter.

(** ** Vocabulary of the properties *)

Module Spec.
Import Py.

(** One application of a delta to a stored quantity:
    [new = max(old + delta, 0)]. *)
Definition clamp_step (quantity delta : Z) : Z := Z.max (quantity + delta) 0.

Definition sum (ds : list Z) : Z := foldr Z.add 0 ds.

(** The deltas a list of events carries for item [k], in order. *)
Definition deltas_for (k : Z) (events : list Parser.Event) : list Z :=
  omap (fun event =>
          match event with
          | Parser.DeltaEvent deltas _ _ => deltas !! k
          | Parser.SnapshotEvent _ _ _ => None
          end) events.

Definition is_delta (event : Parser.Event) : bool :=
  match event with
  | Parser.DeltaEvent _ _ _ => true
  | Parser.SnapshotEvent _ _ _ => false
  end.

(** The running totals [q + d1], [q + d1 + d2], .. of a list of deltas. *)
Fixpoint running_totals (q : Z) (ds : list Z) : list Z :=
  match ds with
  | [] => []
  | d :: rest => (q + d) :: running_totals (q + d) rest
  end.

(** The queued deltas of item [k], in queue order. *)
Definition queued_for (k : Z) (pending : list Store.PendingDelta) : list Z :=
  omap (fun item => if bool_decide (Store.arena_id item = k)
                    then Some (Store.delta item) else None) pending.



(** Decoded objects used as concrete inputs. *)
Definition card_entry (id_key : string) (id : json) (count_key : string) (count : Z)
  : json :=
  JDict [(id_key, id); (count_key, JInt count)].

(** [{"ownedCards":[{"grpId":1,"qty":2}]}] *)
Definition obj_snapshot : json :=
  JDict [("ownedCards"%string, JList [card_entry "grpId" (JInt 1) "qty" 2])].

(** [{"inventoryDelta":{"removes":[{"grpId":7,"quantity":1}]}}] *)
Definition obj_remove : json :=
  JDict [("inventoryDelta"%string,
          JDict [("removes"%string,
                  JList [card_entry "grpId" (JInt 7) "quantity" 1])])].

(** A walked pair that counts as matching: a delta-indicating key whose
    payload normalises to a non-empty map. *)
Definition has_payload (value : json) : bool :=
  match Parser._normalise_deltas value with
  | Ok deltas => Parser.nonempty deltas
  | Raise _ => false
  end.

Definition matching_pairs (obj : json) : list (string * json) :=
  List.filter (fun '(key, value) =>
                 Parser.mem key Parser._DELTA_EVENT_KEYS && has_payload value)
              (Parser._walk_dict obj).

(** The (item id, change) pairs of the collected entries that are neither
    skipped nor zero, in order. *)
Fixpoint nonzero_changes (entries : list (json * Z)) : res (list (Z * Z)) :=
  match entries with
  | [] => Ok []
  | (entry, multiplier) :: rest =>
      c ← Parser.entry_change (Parser.items_of entry) multiplier;
      tail ← nonzero_changes rest;
      Ok (match c with
          | Some (arena_id, change) =>
              if change =? 0 then tail else (arena_id, change) :: tail
          | None => tail
          end)
  end.

Definition changes_for (k : Z) (changes : list (Z * Z)) : list Z :=
  omap (fun '(arena_id, change) =>
          if bool_decide (arena_id = k) then Some change else None) changes.

(** [{"adds":[{"grpId":1,"quantity":2}],"removes":[{"grpId":1,"quantity":2}]}] *)
Definition payload_cancel : json :=
  JDict [("adds"%string, JList [card_entry "grpId" (JInt 1) "quantity" 2]);
         ("removes"%string, JList [card_entry "grpId" (JInt 1) "quantity" 2])].

(** [{"inventoryDelta":{"adds":[{"grpId":1,"quantity":2}],
                         "removes":[{"grpId":1,"quantity":2}]}}] *)
Definition obj_cancel : json := JDict [("inventoryDelta"%string, payload_cancel)].

(** [{"inventoryDelta":{"adds":[{"grpId":1,"quantity":0}]}}] *)
Definition obj_zero : json :=
  JDict [("inventoryDelta"%string,
          JDict [("adds"%string,
                  JList [card_entry "grpId" (JInt 1) "quantity" 0])])].

(** [{"inventoryDelta":{"adds":[{"grpId":55555,"quantity":2}]},
      "ownedCards":[{"grpId":1,"qty":2}]}] *)
Definition obj_both : json :=
  JDict [("inventoryDelta"%string,
          JDict [("adds"%string,
                  JList [card_entry "grpId" (JInt 55555) "quantity" 2])]);
         ("ownedCards"%string, JList [card_entry "grpId" (JInt 1) "qty" 2])].

(** [{"inventoryDelta":{"adds":[{"grpid":"abc","quantity":1}]}}] *)
Definition obj_bad_id : json :=
  JDict [("inventoryDelta"%string,
          JDict [("adds"%string,
                  JList [card_entry "grpid" (JStr "abc") "quantity" 1])])].

(** [{"inventoryDelta":{"adds":[{"grpId":55555,"quantity":2}]}}] *)
Definition obj_add : json :=
  JDict [("inventoryDelta"%string,
          JDict [("adds"%string,
                  JList [card_entry "grpId" (JInt 55555) "quantity" 2])])].

(** The text of the two objects above, as they stand in a log line. *)
Definition dq : string := String (ascii_of_nat 34) EmptyString.
Definition quoted (s : string) : string := (dq ++ s ++ dq)%string.
Definition text_bad_id : string :=
  ("{" ++ quoted "inventoryDelta" ++ ":{" ++ quoted "adds" ++ ":[{"
   ++ quoted "grpid" ++ ":" ++ quoted "abc" ++ "," ++ quoted "quantity"
   ++ ":1}]}}")%string.
Definition text_add : string :=
  ("{" ++ quoted "inventoryDelta" ++ ":{" ++ quoted "adds" ++ ":[{"
   ++ quoted "grpId" ++ ":55555," ++ quoted "quantity" ++ ":2}]}}")%string.

(** A decoder that knows the two texts above. *)
Definition loads_sample (text : string) : res json :=
  if String.eqb text text_bad_id then Ok obj_bad_id
  else if String.eqb text text_add then Ok obj_add
  else Raise ValueError.



Definition is_promo (str : json -> string) (card : list (string * json)) : bool :=
  String.eqb (str (Mapping.get_or_empty "set_type" card)) "promo".

Definition released (str : json -> string) (card : list (string * json)) : string :=
  str (Mapping.get_or_empty "released_at" card).



(** [str] on the values the sample records hold (strings). *)
Definition str_sample (v : json) : string :=
  match v with JStr s => s | _ => EmptyString end.

Definition metadata_card (id : Z) (name set_code set_type released_at : string)
  : list (string * json) :=
  [("arena_id"%string, JInt id); ("name"%string, JStr name);
   ("set"%string, JStr set_code); ("rarity"%string, JStr "rare");
   ("set_type"%string, JStr set_type); ("released_at"%string, JStr released_at)].

Definition card_promo := metadata_card 1 "Promo" "ppp" "promo" "2020-01-01".
Definition card_main := metadata_card 1 "Main" "main" "expansion" "2021-01-01".
Definition card_promo_late := metadata_card 1 "Late" "plt" "promo" "2022-01-01".


(** While a handle is open the tailer remembers its inode; with no inode
    remembered the offset is 0. *)
Definition tailer_inv (g : Tailer.gen) : Prop :=
  match Tailer.at_point g with
  | Tailer.AtPoll =>
      Tailer._inode (Tailer.self g) = None → Tailer._offset (Tailer.self g) = O
  | Tailer.InRead handle _ => Tailer._inode (Tailer.self g) = Some handle
  end.

(** The rotation scenario: the log (inode 1) holds "first\n"; it is then
    renamed away and a new file (inode 2) holding "second\n" takes its
    place. *)
Definition newline : string := String "010"%char EmptyString.

Definition fs_first : Tailer.fs :=
  {| Tailer.entry := Some 1%nat;
     Tailer.data := fun inode =>
       if (inode =? 1)%nat then ("first" ++ newline)%string else EmptyString |}.

Definition fs_rotated : Tailer.fs :=
  {| Tailer.entry := Some 2%nat;
     Tailer.data := fun inode =>
       if (inode =? 1)%nat then ("first" ++ newline)%string
       else if (inode =? 2)%nat then ("second" ++ newline)%string
       else EmptyString |}.

(** The tailer back at the top of its loop after reading all of inode 1. *)
Definition tailer_after_first : Tailer.gen :=
  {| Tailer.self := {| Tailer._offset := 6; Tailer._inode := Some 1%nat;
                       Tailer._last_size := 6 |};
     Tailer.at_point := Tailer.AtPoll |}.

(** The tracker once a snapshot with the given cards has been handled. *)
Definition after_snapshot (cards : gmap Z Z) : Tracker.t :=
  Tracker._handle_snapshot cards "t0" Tracker.init.

Definition delta_event (deltas : gmap Z Z) : Parser.Event :=
  Parser.DeltaEvent deltas "inventorydelta" (JDict []).

(** A seed file with header [arena_id,quantity] and the row [5,-3]. *)
Definition seed_negative : Tracker.seed_csv :=
  {| Tracker.fieldnames := ["arena_id"; "quantity"]%string;
     Tracker.rows := [{["arena_id"%string := "5"%string;
                        "quantity"%string := "-3"%string]}] |}.

(** The metadata row a batch of upserts leaves for item [k]: the last row
    of the batch carrying that id. *)
Definition last_row (k : Z) (rows : list (Z * string * string * string * string))
  : option (string * string * string * string) :=
  foldl (fun found '(aid, name, set_code, rarity, updated_at) =>
           if bool_decide (aid = k)
           then Some (name, set_code, rarity, updated_at) else found)
        None rows.

(** Every stored quantity is at least 0. *)
Definition all_nonneg (cards : gmap Z Z) : Prop :=
  ∀ k q, cards !! k = Some q → 0 ≤ q.


(** The (item id, quantity) pairs the rows of a seed file give, read from
    the two chosen columns. *)
Fixpoint seed_pairs (id_field qty_field : string)
    (rows : list (gmap string string)) : res (list (Z * Z)) :=
  match rows with
  | [] => Ok []
  | row :: rest =>
      arena_id ← Tracker.int_field row id_field;
      quantity ← Tracker.int_field row qty_field;
      tail ← seed_pairs id_field qty_field rest;
      Ok ((arena_id, quantity) :: tail)
  end.

(** The value the last pair with key [k] carries. *)
Definition last_value (k : Z) (pairs : list (Z * Z)) : option Z :=
  foldl (fun found '(key, value) =>
           if bool_decide (key = k) then Some value else found)
        None pairs.

Definition seed_id_keys : list string := ["arena_id"; "grpid"; "titleid"; "id"]%string.
Definition seed_qty_keys : list string := ["quantity"; "qty"; "count"]%string.

(** A snippet that opens with a left brace and closes with a right one. *)
Definition brace_span (snippet : string) : Prop :=
  String.get 0 snippet = Some "{"%char
  ∧ ∃ n, String.get n snippet = Some "}"%char
         ∧ String.get (S n) snippet = None.

Fixpoint contains (c : ascii) (s : string) : bool :=
  match s with
  | EmptyString => false
  | String c' rest => Ascii.eqb c' c || contains c rest
  end.

(** What an event returned for the object [obj] always satisfies. *)
Definition event_ok (obj : json) (event : Parser.Event) : Prop :=
  match event with
  | Parser.DeltaEvent deltas source raw =>
      deltas ≠ ∅ ∧ Parser.mem source Parser._DELTA_EVENT_KEYS = true ∧ raw = obj
  | Parser.SnapshotEvent cards source raw =>
      cards ≠ ∅ ∧ all_nonneg cards ∧ source = "snapshot"%string ∧ raw = obj
  end.

(** The events one snippet contributes to its line: those of the object it
    decodes to, nothing when it does not decode. *)
Definition snippet_events (loads : string -> res json) (snippet : string)
  : option (list Parser.Event) :=
  match loads snippet with
  | Ok data =>
      match Parser._parse_json_object data with
      | Ok found => Some found
      | Raise _ => None
      end
  | Raise _ => None
  end.

(** The lines of a text: cut after every line end (CR LF, LF, or a CR
    not followed by LF), the line end dropped; a last line without line end
    counts. *)
Fixpoint split_lines (s : string) : list string :=
  match s with
  | EmptyString => []
  | String c rest =>
      if Ascii.eqb c "010"%char then EmptyString :: split_lines rest
      else if Ascii.eqb c "013"%char then
        match rest with
        | String c' rest' =>
            if Ascii.eqb c' "010"%char then EmptyString :: split_lines rest'
            else EmptyString :: split_lines rest
        | EmptyString => [EmptyString]
        end
      else match split_lines rest with
           | [] => [String c EmptyString]
           | line :: lines => String c line :: lines
           end
  end.

(** Text all of whose bytes are ASCII, which decoding leaves as it is. *)
Definition ascii_text (s : string) : bool :=
  forallb (fun c => (nat_of_ascii c <? 128)%nat) (list_ascii_of_string s).

(** A file holding [a], CR, LF, [b], LF. *)
Definition fs_crlf : Tailer.fs :=
  {| Tailer.entry := Some 1%nat;
     Tailer.data := fun _ =>
       String "a"%char
         (String "013"%char
            (String "010"%char (String "b"%char (String "010"%char EmptyString)))) |}.

Definition tailer_fresh : Tailer.FileTailer :=
  {| Tailer._offset := 0; Tailer._inode := Some 1%nat; Tailer._last_size := 5 |}.

(** [n] successive calls of [next(gen)] that each yield at once. *)
Fixpoint take_lines (n : nat) (stop : bool) (env : Tailer.fs) (g : Tailer.gen)
  : option (list string * Tailer.gen) :=
  match n with
  | O => Some ([], g)
  | S n' =>
      match Tailer.next 1 stop env g with
      | Some (Some line, g') =>
          match take_lines n' stop env g' with
          | Some (lines, g'') => Some (line :: lines, g'')
          | None => None
          end
      | _ => None
      end
  end.

(** Before the first baseline nothing is in the card or state table. *)
Definition untouched_until_baseline (w : Tracker.t) : Prop :=
  Store.baseline_state (Tracker.store w) ≠ "complete"%string →
  Store.cards (Tracker.store w) = ∅ ∧ Store.state (Tracker.store w) = ∅.


End Spec.


(** * Properties *)

(** ** Store: what the card table holds after each operation *)

Section StoreFacts.
Import Store.

Lemma replace_cards_cards (new_cards : gmap Z Z) (s : t) :
  cards (replace_cards new_cards s) = new_cards.
Proof.
  unfold replace_cards; simpl.
  apply (map_fold_weak_ind (λ table m, table = m)); [done|].
  intros i x m r _ ->. done.
Qed.

(** The table after the loop of [apply_deltas], key by key. *)
Lemma map_fold_upsert_lookup (deltas table : gmap Z Z) (k : Z) :
  map_fold upsert_delta table deltas !! k =
    match deltas !! k with
    | None => table !! k
    | Some d =>
        Some (match table !! k with
              | None => d
              | Some q => Z.max (q + d) 0
              end)
    end.
Proof.
  revert k.
  apply (map_fold_weak_ind (λ r m, ∀ k : Z,
    r !! k = match m !! k with
             | None => table !! k
             | Some d => Some (match table !! k with
                               | None => d
                               | Some q => Z.max (q + d) 0
                               end)
             end)).
  - intros k. by rewrite lookup_empty.
  - intros i x m r Hi IH k. unfold upsert_delta.
    destruct (decide (i = k)) as [->|Hne].
    + rewrite lookup_insert_eq.
      specialize (IH k). rewrite Hi in IH. rewrite IH.
      destruct (table !! k); by rewrite lookup_insert_eq.
    + rewrite (lookup_insert_ne m) by done. rewrite <- IH.
      destruct (r !! i); by rewrite lookup_insert_ne.
Qed.

Lemma apply_deltas_lookup (deltas : gmap Z Z) (s : t) (k : Z) :
  cards (apply_deltas deltas s) !! k =
    match deltas !! k with
    | None => cards s !! k
    | Some d =>
        Some (match cards s !! k with
              | None => d
              | Some q => Z.max (q + d) 0
              end)
    end.
Proof.
  unfold apply_deltas. case_bool_decide as He.
  - subst. by rewrite lookup_empty.
  - simpl. apply map_fold_upsert_lookup.
Qed.

Lemma apply_deltas_others (deltas : gmap Z Z) (s : t) :
  metadata (apply_deltas deltas s) = metadata s
  ∧ state (apply_deltas deltas s) = state s
  ∧ pending_deltas (apply_deltas deltas s) = pending_deltas s.
Proof. unfold apply_deltas. by case_bool_decide. Qed.
End StoreFacts.

(** C10. [apply_deltas] stores the delta of an item that has no row yet as
    it is given, with no clamp at zero on that insertion; the clamp
    [MAX(quantity + delta, 0)] is what an item that already has a row
    gets. *)
Theorem apply_deltas_insert_unclamped (deltas : gmap Z Z) (s : Store.t) (k d : Z) :
  deltas !! k = Some d →
  (Store.cards s !! k = None →
   Store.cards (Store.apply_deltas deltas s) !! k = Some d)
  ∧ (∀ q, Store.cards s !! k = Some q →
          Store.cards (Store.apply_deltas deltas s) !! k = Some (Z.max (q + d) 0)).
Proof.
  intros Hd. rewrite apply_deltas_lookup, Hd.
  split; [intros -> | intros q ->]; done.
Qed.

Lemma apply_deltas_insert_unclamped_witness :
  Store.cards (Store.apply_deltas {[7 := -1]} Store.empty) !! 7 = Some (-1)
  ∧ Store.cards (Store.apply_deltas {[7 := -5]}
                   (Store.with_cards {[7 := 2]} Store.empty)) !! 7 = Some 0.
Proof.
  split.
  - refine (proj1 (apply_deltas_insert_unclamped
                     {[7 := -1]} Store.empty 7 (-1) _) _); reflexivity.
  - refine (proj2 (apply_deltas_insert_unclamped
                     {[7 := -5]} (Store.with_cards {[7 := 2]} Store.empty)
                     7 (-5) _) 2 _); reflexivity.
Defined.

(** ** Reconciler *)

Section TrackerFacts.
Import Store Tracker Spec.



(** Whatever the store accepts, queueing touches the pending queue only,
    adds rows of the event only, and has added them all when no exception
    escapes. *)
Lemma queue_deltas_prefix (ts : Py.json) (items : list (Z * Z)) :
  ∀ s : Store.t,
    ∃ queued,
      queued `prefix_of` items
      ∧ ((queue_deltas ts items s).2 = None → queued = items)
      ∧ (queue_deltas ts items s).1
        = with_pending
            (pending_deltas s
             ++ map (fun '(arena_id, delta) => mkPendingDelta arena_id delta ts)
                    queued)
            s.
Proof.
  induction items as [|[k d] items IH]; intros s; simpl.
  - exists []. split; [done|]. split; [done|].
    rewrite app_nil_r. by destruct s.
  - destruct (add_pending_delta k d ts s) as [s'|e] eqn:Hadd.
    + destruct (IH s') as (queued & Hpre & Hall & Hq).
      exists ((k, d) :: queued). split; [by apply prefix_cons|].
      split; [intros Hnone; by rewrite Hall|].
      rewrite Hq. unfold add_pending_delta in Hadd.
      destruct (negb (int64 k && int64 d)); [done|].
      destruct (bind_ts ts); [done|]. injection Hadd as <-.
      unfold with_pending; simpl. by rewrite <- app_assoc.
    + exists []. split; [apply prefix_nil|]. split; [done|].
      simpl. rewrite app_nil_r. by destruct s.
Qed.

Lemma handle_delta_complete deltas raw now w k :
  baseline_state (store w) = "complete"%string →
  cards (store (_handle_delta deltas raw now w).1) !! k =
    match deltas !! k with
    | None => cards (store w) !! k
    | Some d => Some (match cards (store w) !! k with
                      | None => d
                      | Some q => clamp_step q d
                      end)
    end
  ∧ baseline_state (store (_handle_delta deltas raw now w).1) = "complete"%string
  ∧ (_handle_delta deltas raw now w).2 = None.
Proof.
  intros Hb. unfold _handle_delta. rewrite Hb. simpl. split; [|split; [|done]].
  - apply apply_deltas_lookup.
  - unfold baseline_state, get_state in *.
    by rewrite (proj1 (proj2 (apply_deltas_others _ _))).
Qed.

Lemma handle_delta_missing deltas raw now w :
  baseline_state (store w) ≠ "complete"%string →
  _handle_delta deltas raw now w
  = ({| store := (queue_deltas (event_ts raw now) (map_to_list deltas) (store w)).1;
        exports := exports w |},
     (queue_deltas (event_ts raw now) (map_to_list deltas) (store w)).2).
Proof.
  intros Hb. unfold _handle_delta.
  destruct (String.eqb _ _) eqn:He; [by apply String.eqb_eq in He|].
  simpl. by destruct (queue_deltas _ _ _).
Qed.

Lemma process_events_cons now event events (w : Tracker.t) :
  process_events now (event :: events) w
  = match (handle_event now w event).2 with
    | None => process_events now events (handle_event now w event).1
    | Some _ => (handle_event now w event).1
    end.
Proof.
  unfold process_events. simpl.
  by destruct (handle_event now w event) as [w' [e|]].
Qed.
End TrackerFacts.




Section DeltaSequences.
Import Store Tracker Spec.

Lemma foldl_clamp_nonneg (ds : list Z) (q : Z) :
  0 ≤ q ∨ ds ≠ [] → 0 ≤ foldl clamp_step q ds.
Proof.
  revert q. induction ds as [|d ds IH]; intros q Hq; simpl.
  - destruct Hq; [done | congruence].
  - apply IH. left. unfold clamp_step. lia.
Qed.

Lemma foldl_clamp_no_overshoot (ds : list Z) (q : Z) :
  0 ≤ q →
  Forall (fun total => 0 ≤ total) (removelast (running_totals q ds)) →
  foldl clamp_step q ds = Z.max 0 (q + sum ds).
Proof.
  revert q. induction ds as [|d ds IH]; intros q Hq Hall.
  - simpl. unfold sum; simpl. lia.
  - destruct ds as [|d' ds].
    + simpl. unfold clamp_step, sum; simpl. lia.
    + change (running_totals q (d :: d' :: ds))
        with ((q + d) :: running_totals (q + d) (d' :: ds)) in Hall.
      change (removelast ((q + d) :: running_totals (q + d) (d' :: ds)))
        with ((q + d) :: removelast (running_totals (q + d) (d' :: ds))) in Hall.
      apply Forall_cons in Hall as [Hqd Hall].
      change (foldl clamp_step q (d :: d' :: ds))
        with (foldl clamp_step (clamp_step q d) (d' :: ds)).
      replace (clamp_step q d) with (q + d) by (unfold clamp_step; lia).
      rewrite IH by done.
      unfold sum; simpl. f_equal. lia.
Qed.

Lemma process_deltas_lookup now (events : list Parser.Event) (k : Z) :
  ∀ (w : Tracker.t) (q : Z),
    forallb is_delta events = true →
    baseline_state (store w) = "complete"%string →
    cards (store w) !! k = Some q →
    cards (store (process_events now events w)) !! k
    = Some (foldl clamp_step q (deltas_for k events)).
Proof.
  induction events as [|event events IH]; intros w q Hall Hb Hq; [done|].
  simpl in Hall. apply andb_prop in Hall as [Hd Hall].
  destruct event as [|deltas source raw]; [done|].
  destruct (handle_delta_complete deltas raw now w k Hb) as (Hk & Hb' & Hok).
  rewrite Hq in Hk.
  rewrite process_events_cons. cbn [handle_event]. rewrite Hok.
  unfold deltas_for. cbn [omap list_omap].
  destruct (deltas !! k) as [d|]; simpl; by apply IH.
Qed.

(** An item with no row gets one from the first delta that mentions it,
    holding that delta as it stands. *)
Lemma process_deltas_lookup_absent now (events : list Parser.Event) (k : Z) :
  ∀ w : Tracker.t,
    forallb is_delta events = true →
    baseline_state (store w) = "complete"%string →
    cards (store w) !! k = None →
    cards (store (process_events now events w)) !! k
    = match deltas_for k events with
      | [] => None
      | d :: rest => Some (foldl clamp_step d rest)
      end.
Proof.
  induction events as [|event events IH]; intros w Hall Hb Hq; [done|].
  simpl in Hall. apply andb_prop in Hall as [Hd Hall].
  destruct event as [|deltas source raw]; [done|].
  destruct (handle_delta_complete deltas raw now w k Hb) as (Hk & Hb' & Hok).
  rewrite Hq in Hk.
  rewrite process_events_cons. cbn [handle_event]. rewrite Hok.
  unfold deltas_for. cbn [omap list_omap]. fold (deltas_for k events).
  destruct (deltas !! k) as [d|]; simpl.
  - by apply process_deltas_lookup.
  - by apply IH.
Qed.
End DeltaSequences.

(** C3, as the code has it. The quantity of an item after a sequence of
    delta events handled while the baseline is complete is the result of
    applying the item's deltas one at a time, in order, each with
    [new = max(old + delta, 0)], starting from its initial quantity, or from
    0 for an item with no row whose first delta is not negative (a newly
    acquired card). It is never negative when the initial quantity is not,
    and it equals [max(0, initial + sum of the deltas)] when no intermediate
    running total drops below zero. An item with no row and no delta stays
    without one. *)
Theorem deltas_while_complete_stepwise
    (now : string) (events : list Parser.Event) (w : Tracker.t) (k : Z) :
  forallb Spec.is_delta events = true →
  Store.baseline_state (Tracker.store w) = "complete"%string →
  let ds := Spec.deltas_for k events in
  let q0 := default 0 (Store.cards (Tracker.store w) !! k) in
  let final := foldl Spec.clamp_step q0 ds in
  (Store.cards (Tracker.store w) !! k = None →
   match ds with d :: _ => 0 ≤ d | [] => True end) →
  Store.cards (Tracker.store (Tracker.process_events now events w)) !! k
  = match Store.cards (Tracker.store w) !! k, ds with
    | None, [] => None
    | _, _ => Some final
    end
  ∧ (0 ≤ q0 → 0 ≤ final)
  ∧ (0 ≤ q0 →
     Forall (fun total => 0 ≤ total) (removelast (Spec.running_totals q0 ds)) →
     final = Z.max 0 (q0 + Spec.sum ds)).
Proof.
  intros Hall Hb ds q0 final Hfirst. split; [|split].
  - subst final q0 ds.
    destruct (Store.cards (Tracker.store w) !! k) as [q|] eqn:Hq.
    + rewrite (process_deltas_lookup now events k w q Hall Hb Hq).
      by destruct (Spec.deltas_for k events).
    + rewrite (process_deltas_lookup_absent now events k w Hall Hb Hq).
      destruct (Spec.deltas_for k events) as [|d rest]; [done|].
      simpl. specialize (Hfirst eq_refl). simpl in Hfirst.
      by replace (Spec.clamp_step 0 d) with d by (unfold Spec.clamp_step; lia).
  - intros Hq0. apply foldl_clamp_nonneg. by left.
  - intros Hq0 Hrun. by apply foldl_clamp_no_overshoot.
Qed.

Lemma deltas_while_complete_stepwise_witness :
  Store.cards (Tracker.store
     (Tracker.process_events "t1"
        [Spec.delta_event {[12345 := 1]}; Spec.delta_event {[55555 := 2]}]
        (Spec.after_snapshot {[12345 := 2; 67890 := 1]}))) !! 55555
  = Some 2
  ∧ Store.cards (Tracker.store
     (Tracker.process_events "t1"
        [Spec.delta_event {[1 := -2]}; Spec.delta_event {[1 := 3]}]
        (Spec.after_snapshot {[1 := 1]}))) !! 1
    = Some 3.
Proof.
  split.
  - refine (proj1 (deltas_while_complete_stepwise "t1"
              [Spec.delta_event {[12345 := 1]}; Spec.delta_event {[55555 := 2]}]
              (Spec.after_snapshot {[12345 := 2; 67890 := 1]}) 55555 _ _ _));
      [reflexivity | reflexivity | intros _; vm_compute; discriminate].
  - refine (proj1 (deltas_while_complete_stepwise "t1"
              [Spec.delta_event {[1 := -2]}; Spec.delta_event {[1 := 3]}]
              (Spec.after_snapshot {[1 := 1]}) 1 _ _ _));
      [reflexivity | reflexivity | discriminate].
Defined.

(** C3 as stated fails: from quantity 1, the deltas -2 then +3 leave 3,
    where [max(0, 1 + (-2 + 3))] is 2. *)
Lemma deltas_while_complete_counterexample :
  let w := Spec.after_snapshot {[1 := 1]} in
  let events := [Spec.delta_event {[1 := -2]}; Spec.delta_event {[1 := 3]}] in
  Store.baseline_state (Tracker.store w) = "complete"%string
  ∧ Store.cards (Tracker.store w) !! 1 = Some 1
  ∧ Store.cards (Tracker.store (Tracker.process_events "t1" events w)) !! 1
    ≠ Some (Z.max 0 (1 + Spec.sum (Spec.deltas_for 1 events))).
Proof. vm_compute. repeat split; discriminate. Qed.

Section Drain.
Import Store Tracker Spec.

Lemma aggregate_loop_lookup (pending : list PendingDelta) (k : Z) :
  ∀ acc : gmap Z Z,
    foldl (fun aggregate item =>
             <[arena_id item :=
                 default 0 (aggregate !! arena_id item) + delta item]> aggregate)
          acc pending !! k
    = match queued_for k pending with
      | [] => acc !! k
      | ds => Some (default 0 (acc !! k) + sum ds)
      end.
Proof.
  induction pending as [|item pending IH]; intros acc; [done|].
  simpl. rewrite IH. unfold queued_for; simpl.
  case_bool_decide as Hk; simpl.
  - subst k. rewrite lookup_insert_eq. simpl.
    fold (queued_for (arena_id item) pending).
    destruct (queued_for (arena_id item) pending); unfold sum; simpl;
      f_equal; lia.
  - by rewrite lookup_insert_ne.
Qed.

Lemma aggregate_pending_lookup (pending : list PendingDelta) (k : Z) :
  aggregate_pending pending !! k
  = match queued_for k pending with
    | [] => None
    | ds => Some (sum ds)
    end.
Proof.
  unfold aggregate_pending. rewrite aggregate_loop_lookup, lookup_empty.
  by destruct (queued_for k pending).
Qed.

(** The drain: the queue ends empty, and every item has the net of its
    queued deltas applied once. *)
Lemma apply_pending_lookup (s : Store.t) (k : Z) :
  pending_deltas (_apply_pending_deltas s) = []
  ∧ state (_apply_pending_deltas s) = state s
  ∧ cards (_apply_pending_deltas s) !! k
    = match queued_for k (pending_deltas s) with
      | [] => cards s !! k
      | ds => Some (match cards s !! k with
                    | None => sum ds
                    | Some q => clamp_step q (sum ds)
                    end)
      end.
Proof.
  unfold _apply_pending_deltas, iter_pending_deltas.
  destruct (pending_deltas s) as [|item pending] eqn:Hp; [done|].
  split; [done|]. split.
  - apply (apply_deltas_others (aggregate_pending (item :: pending)) s).
  - change (cards (clear_pending_deltas ?x)) with (cards x).
    rewrite apply_deltas_lookup, aggregate_pending_lookup.
    by destruct (queued_for k (item :: pending)).
Qed.

Lemma handle_snapshot_drains (snapshot : gmap Z Z) now (w : Tracker.t) (k : Z) :
  let w' := _handle_snapshot snapshot now w in
  pending_deltas (store w') = []
  ∧ baseline_state (store w') = "complete"%string
  ∧ cards (store w') !! k
    = match queued_for k (pending_deltas (store w)) with
      | [] => snapshot !! k
      | ds => Some (match snapshot !! k with
                    | None => sum ds
                    | Some q => clamp_step q (sum ds)
                    end)
      end.
Proof.
  intros w'. subst w'. unfold _handle_snapshot.
  set (s1 := set_state "last_snapshot" now
               (mark_baseline_complete (replace_cards snapshot (store w)))).
  change (store (export ?x)) with (store x).
  change (store {| store := ?x; exports := _ |}) with x.
  destruct (apply_pending_lookup s1 k) as (Hp & Hs & Hc).
  split; [done|]. split.
  - unfold baseline_state, get_state. rewrite Hs. subst s1. simpl.
    rewrite lookup_insert_ne by done. by rewrite lookup_insert_eq.
  - rewrite Hc.
    change (pending_deltas s1) with (pending_deltas (store w)).
    change (cards s1) with (cards (replace_cards snapshot (store w))).
    by rewrite replace_cards_cards.
Qed.
End Drain.

(** C1 does not hold of the code. A removal of an item that has no row is
    inserted as it is: after the snapshot [{1: 2}] and the delta [{7: -1}]
    (both as the extractor produces them), item 7 is stored with quantity
    -1. A seed file with a negative quantity is stored unclamped too. *)
Theorem negative_quantity_reachable :
  (∃ snapshot_events delta_events,
      Parser._parse_json_object Spec.obj_snapshot = Py.Ok snapshot_events
      ∧ Parser._parse_json_object Spec.obj_remove = Py.Ok delta_events
      ∧ Store.cards
          (Tracker.store
             (Tracker.process_events "t" (snapshot_events ++ delta_events)
                Tracker.init)) !! 7
        = Some (-1))
  ∧ (∃ w, Tracker.seed_from_csv Spec.seed_negative Tracker.init = Py.Ok w
          ∧ Store.cards (Tracker.store w) !! 5 = Some (-3)).
Proof.
  split.
  - exists [Parser.SnapshotEvent {[1 := 2]} "snapshot" Spec.obj_snapshot],
           [Parser.DeltaEvent {[7 := -1]} "inventorydelta" Spec.obj_remove].
    repeat split; reflexivity.
  - eexists. split; reflexivity.
Qed.

(** C2 does not hold of the code. The removal [{7: -1}] queued while the
    baseline is missing, then the snapshot [{1: 2}]: the queue is drained
    and cleared, item 1 keeps 2, but item 7 (absent from the snapshot) ends
    at -1, where [max(0, 0 + (-1))] is 0. *)
Theorem queued_removal_drains_negative :
  ∃ delta_events snapshot_events,
    Parser._parse_json_object Spec.obj_remove = Py.Ok delta_events
    ∧ Parser._parse_json_object Spec.obj_snapshot = Py.Ok snapshot_events
    ∧ let queued := Tracker.process_events "t1" delta_events Tracker.init in
      let final := Tracker.process_events "t2" snapshot_events queued in
      Store.cards (Tracker.store queued) = ∅
      ∧ Spec.queued_for 7 (Store.pending_deltas (Tracker.store queued)) = [-1]
      ∧ Store.pending_deltas (Tracker.store final) = []
      ∧ Store.cards (Tracker.store final) !! 1 = Some 2
      ∧ Store.cards (Tracker.store final) !! 7 = Some (-1)
      ∧ Z.max 0 (0 + Spec.sum [-1]) = 0.
Proof.
  exists [Parser.DeltaEvent {[7 := -1]} "inventorydelta" Spec.obj_remove],
         [Parser.SnapshotEvent {[1 := 2]} "snapshot" Spec.obj_snapshot].
  repeat split; reflexivity.
Qed.

(** ** Extractor *)

Section ParserFacts.
Import Py Parser Spec.

Lemma accumulate_lookup (changes : list (Z * Z)) (k : Z) :
  ∀ acc : gmap Z Z,
    foldl (fun deltas '(arena_id, change) =>
             <[arena_id := default 0 (deltas !! arena_id) + change]> deltas)
          acc changes !! k
    = match changes_for k changes with
      | [] => acc !! k
      | cs => Some (default 0 (acc !! k) + sum cs)
      end.
Proof.
  induction changes as [|[id c] changes IH]; intros acc; [done|].
  simpl. rewrite IH. unfold changes_for; simpl.
  case_bool_decide as Hk; simpl.
  - subst k. rewrite lookup_insert_eq. simpl.
    fold (changes_for id changes).
    destruct (changes_for id changes); unfold sum; simpl; f_equal; lia.
  - by rewrite lookup_insert_ne.
Qed.

(** The loop of [_normalise_deltas] adds up exactly the non-zero changes. *)
Lemma normalise_loop_changes (entries : list (json * Z)) :
  ∀ acc : gmap Z Z,
    normalise_loop entries acc
    = changes ← nonzero_changes entries;
      Ok (foldl (fun deltas '(arena_id, change) =>
                   <[arena_id := default 0 (deltas !! arena_id) + change]> deltas)
                acc changes).
Proof.
  induction entries as [|[entry multiplier] entries IH]; intros acc; [done|].
  simpl. destruct (entry_change (items_of entry) multiplier) as [c|e]; [|done].
  simpl. destruct c as [[id change]|].
  - destruct (change =? 0); rewrite IH;
      by destruct (nonzero_changes entries).
  - rewrite IH. by destruct (nonzero_changes entries).
Qed.
End ParserFacts.

(** C5 does not hold of the code. [_normalise_deltas] drops an entry whose
    own change is 0 (the object with one entry of quantity 0 yields no
    event), but nothing drops an item whose changes cancel: for the payload
    with +2 and -2 for item 1 the changes found are 2 and -2, their sum is
    0, and item 1 stays in the map, bound to 0. The map is not empty, so the
    object yields a delta event for item 1; handled while the baseline is
    complete and item 1 has no row, it stores item 1 with quantity 0 and
    makes an export. *)
Theorem normalise_deltas_keeps_cancelled_item :
  Spec.nonzero_changes (Parser._collect_card_like_entries Spec.payload_cancel)
  = Py.Ok [(1, 2); (1, -2)]
  ∧ Spec.sum (Spec.changes_for 1 [(1, 2); (1, -2)]) = 0
  ∧ Parser._normalise_deltas Spec.payload_cancel = Py.Ok {[1 := 0]}
  ∧ Parser._parse_json_object Spec.obj_cancel
    = Py.Ok [Parser.DeltaEvent {[1 := 0]} "inventorydelta" Spec.obj_cancel]
  ∧ Parser._parse_json_object Spec.obj_zero = Py.Ok []
  ∧ let w := Spec.after_snapshot {[2 := 1]} in
    let w' :=
      Tracker.process_events "t1"
        [Parser.DeltaEvent {[1 := 0]} "inventorydelta" Spec.obj_cancel] w in
    Store.cards (Tracker.store w) !! 1 = None
    ∧ Store.cards (Tracker.store w') !! 1 = Some 0
    ∧ Tracker.exports w'
      = Tracker.exports w ++ [Store.cards (Tracker.store w')].
Proof. repeat split; reflexivity. Qed.

Section Classification.
Import Py Parser Spec.

Lemma nonempty_true (d : gmap Z Z) : nonempty d = true ↔ d ≠ ∅.
Proof.
  unfold nonempty. rewrite negb_true_iff, bool_decide_eq_false. done.
Qed.

Lemma delta_events_loop_matching (pairs : list (string * json)) :
  ∀ found,
    delta_events_loop pairs = Ok found →
    Forall2 (fun '(key, value) '(source, deltas) =>
               source = key ∧ _normalise_deltas value = Ok deltas ∧ deltas ≠ ∅)
            (List.filter (fun '(key, value) =>
                            mem key _DELTA_EVENT_KEYS && has_payload value)
                         pairs)
            found.
Proof.
  induction pairs as [|[key value] pairs IH]; intros found Hf; simpl in *.
  - injection Hf as <-. constructor.
  - destruct (mem key _DELTA_EVENT_KEYS); simpl; [|by apply IH].
    unfold has_payload.
    destruct (_normalise_deltas value) as [deltas|] eqn:Hn; [|done].
    simpl in Hf. destruct (delta_events_loop pairs) as [tail|]; [|done].
    simpl in Hf. injection Hf as <-. specialize (IH tail eq_refl).
    destruct (nonempty deltas) eqn:Hne; [|done].
    constructor; [|done]. by apply nonempty_true in Hne.
Qed.

Lemma filter_nonempty_matching (pairs : list (string * json)) found :
  Forall2 (fun '(key, value) '(source, deltas) =>
             source = key ∧ _normalise_deltas value = Ok deltas ∧ deltas ≠ ∅)
          pairs found →
  List.filter (fun '(_, deltas) => nonempty deltas) found = found.
Proof.
  induction 1 as [|[key value] [source deltas] ps fs (_ & _ & Hne) _ IH];
    [done|].
  simpl. apply nonempty_true in Hne. by rewrite Hne, IH.
Qed.
End Classification.

(** C7. A decoded object in which some delta-indicating key has a
    non-empty normalised payload yields delta events only, one per such key
    in walk order, and no snapshot event; with no such key it yields the one
    snapshot event of its snapshot cards when these are non-empty, and
    nothing otherwise. *)
Theorem parse_json_object_delta_precedence (obj : Py.json) (events : list Parser.Event) :
  Parser.is_dict obj = true →
  Parser._parse_json_object obj = Py.Ok events →
  (Spec.matching_pairs obj ≠ [] →
   Forall2 (fun '(key, value) event =>
              ∃ deltas, Parser._normalise_deltas value = Py.Ok deltas
                        ∧ deltas ≠ ∅
                        ∧ event = Parser.DeltaEvent deltas key obj)
           (Spec.matching_pairs obj) events)
  ∧ (Spec.matching_pairs obj = [] →
     ∃ cards, Parser._extract_snapshot_cards obj = Py.Ok cards
              ∧ (Parser.nonempty cards = true →
                 Parser._find_card_entries obj Parser._SNAPSHOT_KEYS ≠ [])
              ∧ events = if Parser.nonempty cards
                         then [Parser.SnapshotEvent cards "snapshot" obj]
                         else []).
Proof.
  intros Hd Hp. unfold Parser._parse_json_object in Hp. rewrite Hd in Hp.
  destruct (Parser._extract_delta_events obj) as [found|] eqn:Hf; [|done].
  simpl in Hp.
  pose proof (delta_events_loop_matching _ _ Hf) as Hm.
  fold (Spec.matching_pairs obj) in Hm.
  rewrite (filter_nonempty_matching _ _ Hm) in Hp.
  split.
  - intros Hne.
    destruct Hm as [|[key value] [source deltas] ps fs (-> & Hn & Hd') Hrest];
      [done|].
    simpl in Hp. injection Hp as <-.
    constructor; [by exists deltas|].
    clear -Hrest. induction Hrest as [|[k v] [s d] ? ? (-> & ? & ?) _ IH];
      constructor; [by exists d | done].
  - intros He. rewrite He in Hm. inversion Hm; subst. simpl in Hp.
    destruct (Parser._extract_snapshot_cards obj) as [cards|] eqn:Hs; [|done].
    simpl in Hp. exists cards. split; [done|]. split.
    + intros Hne Hnil. unfold Parser._extract_snapshot_cards in Hs.
      rewrite Hnil in Hs. simpl in Hs. injection Hs as <-. done.
    + destruct (Parser.nonempty cards); by injection Hp as <-.
Qed.

Lemma parse_json_object_delta_precedence_witness :
  Forall2 (fun '(key, value) event =>
             ∃ deltas, Parser._normalise_deltas value = Py.Ok deltas
                       ∧ deltas ≠ ∅
                       ∧ event = Parser.DeltaEvent deltas key Spec.obj_both)
          (Spec.matching_pairs Spec.obj_both)
          [Parser.DeltaEvent {[55555 := 2]} "inventorydelta" Spec.obj_both]
  ∧ ∃ cards, Parser._extract_snapshot_cards Spec.obj_snapshot = Py.Ok cards
             ∧ (Parser.nonempty cards = true →
                Parser._find_card_entries Spec.obj_snapshot Parser._SNAPSHOT_KEYS
                ≠ [])
             ∧ [Parser.SnapshotEvent {[1 := 2]} "snapshot" Spec.obj_snapshot]
               = if Parser.nonempty cards
                 then [Parser.SnapshotEvent cards "snapshot" Spec.obj_snapshot]
                 else [].
Proof.
  split.
  - refine (proj1 (parse_json_object_delta_precedence Spec.obj_both _ _ _) _);
      [reflexivity | reflexivity | vm_compute; discriminate].
  - refine (proj2 (parse_json_object_delta_precedence Spec.obj_snapshot _ _ _) _);
      reflexivity.
Defined.

(** C6 does not hold of the code. With a decoder that reads the two sample
    texts as the objects they denote, a line whose entry has the
    non-numeric string "abc" under "grpid" makes [parse_line] raise
    [ValueError]; the well-formed object earlier on the same line, which
    alone yields a delta event, is lost with it. *)
Theorem parse_line_raises_on_bad_id (loads : string → Py.res Py.json) :
  loads Spec.text_bad_id = Py.Ok Spec.obj_bad_id →
  loads Spec.text_add = Py.Ok Spec.obj_add →
  Parser.parse_line loads ("noise " ++ Spec.text_bad_id ++ " trailing")
  = Py.Raise Py.ValueError
  ∧ Parser.parse_line loads Spec.text_add
    = Py.Ok [Parser.DeltaEvent {[55555 := 2]} "inventorydelta" Spec.obj_add]
  ∧ Parser.parse_line loads (Spec.text_add ++ " " ++ Spec.text_bad_id)
    = Py.Raise Py.ValueError
  ∧ ∀ now w,
      Tracker.process_line loads now (Spec.text_add ++ " " ++ Spec.text_bad_id) w
      = (w, Some Py.ValueError).
Proof.
  intros Hbad Hadd. unfold Tracker.process_line, Parser.parse_line.
  assert (Parser._extract_json_strings
            ("noise " ++ Spec.text_bad_id ++ " trailing")
          = [Spec.text_bad_id]) as -> by reflexivity.
  assert (Parser._extract_json_strings Spec.text_add = [Spec.text_add])
    as -> by reflexivity.
  assert (Parser._extract_json_strings
            (Spec.text_add ++ " " ++ Spec.text_bad_id)
          = [Spec.text_add; Spec.text_bad_id]) as -> by reflexivity.
  cbn [Parser.parse_snippets]. rewrite Hbad, Hadd.
  repeat split; reflexivity.
Qed.

Lemma parse_line_raises_on_bad_id_witness :
  Parser.parse_line Spec.loads_sample
    ("noise " ++ Spec.text_bad_id ++ " trailing")
  = Py.Raise Py.ValueError.
Proof.
  refine (proj1 (parse_line_raises_on_bad_id Spec.loads_sample _ _));
    reflexivity.
Defined.

(** ** Metadata merger *)

Section MergeFacts.
Import Py Mapping Spec.
Variable str : json → string.







Lemma upsert_rows_lookup (timestamp : string)
    (entries : list (Z * list (string * json))) (k : Z) :
  NoDup entries.*1 →
  ∀ table : gmap Z (string * string * string * string),
    foldl (fun table '(aid, name, set_code, rarity, updated_at) =>
             <[aid := (name, set_code, rarity, updated_at)]> table)
          table (map (row_of str timestamp) entries) !! k
    = match (list_to_map entries : gmap Z (list (string * json))) !! k with
      | Some card =>
          Some (str (get_or_empty "name" card), str (get_or_empty "set" card),
                str (get_or_empty "rarity" card), timestamp)
      | None => table !! k
      end.
Proof.
  induction entries as [|[a card] entries IH]; intros Hnd table; [done|].
  apply NoDup_cons in Hnd as [Ha Hnd]. simpl. rewrite IH by done.
  destruct (decide (a = k)) as [->|Hne].
  - rewrite lookup_insert_eq.
    by rewrite (not_elem_of_list_to_map_1 _ _ Ha), lookup_insert_eq.
  - rewrite (lookup_insert_ne (list_to_map entries)) by done.
    by rewrite lookup_insert_ne.
Qed.
End MergeFacts.




(** The two tie-breaks of the specification, in both input orders. *)
Example merge_tie_break_examples :
  Mapping.choose Spec.str_sample [Spec.card_promo; Spec.card_main] ∅
  = Py.Ok {[1 := Spec.card_main]}
  ∧ Mapping.choose Spec.str_sample [Spec.card_main; Spec.card_promo] ∅
    = Py.Ok {[1 := Spec.card_main]}
  ∧ Mapping.choose Spec.str_sample [Spec.card_promo; Spec.card_promo_late] ∅
    = Py.Ok {[1 := Spec.card_promo_late]}
  ∧ Mapping.choose Spec.str_sample [Spec.card_promo_late; Spec.card_promo] ∅
    = Py.Ok {[1 := Spec.card_promo_late]}.
Proof. repeat split; reflexivity. Qed.

(** ** Tailer *)

Section TailerFacts.
Import Tailer Spec.

Lemma step_preserves_inv stop env g :
  tailer_inv g →
  match step stop env g with
  | Yield _ g' | Continue g' => tailer_inv g'
  | Return => True
  end.
Proof.
  unfold tailer_inv, step. destruct g as [[offset inode size] [|handle pos]]; simpl.
  - intros Hinv. destruct stop; [done|].
    destruct (entry env) as [ino|]; simpl; done.
  - intros Hinv.
    destruct (readline (data env handle) pos) as [[|c line] consumed]; simpl;
      [|done].
    intros Hnone. congruence.
Qed.

Lemma reachable_inv g : reachable g → tailer_inv g.
Proof.
  induction 1 as [|stop env g line g' _ IH Hs|stop env g g' _ IH Hs].
  - done.
  - pose proof (step_preserves_inv stop env g IH) as Hp. by rewrite Hs in Hp.
  - pose proof (step_preserves_inv stop env g IH) as Hp. by rewrite Hs in Hp.
Qed.

Lemma reachable_after_first : reachable tailer_after_first.
Proof.
  set (opened := {| _offset := 0%nat; _inode := Some 1%nat; _last_size := 6 |}).
  apply (reach_continue false fs_first
           {| self := opened; at_point := InRead 1 6 |}); [|reflexivity].
  apply (reach_yield false fs_first
           {| self := opened; at_point := InRead 1 0 |} "first"); [|reflexivity].
  apply (reach_continue false fs_first init); [|reflexivity].
  apply reach_init.
Qed.

(** Once "second" has been read and the file stays as it is, the tailer
    only alternates between polling and an empty read. *)
Lemma next_idle_after_second (fuel : nat) :
  next fuel false fs_rotated
    {| self := {| _offset := 7; _inode := Some 2%nat; _last_size := 7 |};
       at_point := AtPoll |} = None
  ∧ next fuel false fs_rotated
      {| self := {| _offset := 7; _inode := Some 2%nat; _last_size := 7 |};
         at_point := InRead 2 7 |} = None.
Proof.
  induction fuel as [|fuel [IHpoll IHread]]; [done|].
  split.
  - change (next (S fuel) false fs_rotated ?g)
      with (next fuel false fs_rotated
              {| self := {| _offset := 7; _inode := Some 2%nat; _last_size := 7 |};
                 at_point := InRead 2 7 |}).
    exact IHread.
  - change (next (S fuel) false fs_rotated ?g)
      with (next fuel false fs_rotated
              {| self := {| _offset := 7; _inode := Some 2%nat; _last_size := 7 |};
                 at_point := AtPoll |}).
    exact IHpoll.
Qed.
End TailerFacts.

(** C9. In every poll cycle a reachable tailer finds the file present with
    an identity other than the one last seen, or with a size smaller than
    the one last observed, reading starts at offset 0. In the rotation
    scenario ("first\n" written, the file replaced, "second\n" written to
    the new file) the tailer yields "first", then "second", and then no
    further line. *)
Theorem tailer_resets_on_rotation :
  (∀ (g : Tailer.gen) (env : Tailer.fs) (inode : nat),
      Tailer.reachable g →
      Tailer.at_point g = Tailer.AtPoll →
      Tailer.entry env = Some inode →
      Tailer._inode (Tailer.self g) ≠ Some inode
      ∨ (String.length (Tailer.data env inode) < Tailer._last_size (Tailer.self g))%nat →
      Tailer.step false env g
      = Tailer.Continue
          {| Tailer.self :=
               {| Tailer._offset := 0; Tailer._inode := Some inode;
                  Tailer._last_size := String.length (Tailer.data env inode) |};
             Tailer.at_point := Tailer.InRead inode 0 |})
  ∧ (∃ g1 g2,
        Tailer.next 2 false Spec.fs_first Tailer.init = Some (Some "first"%string, g1)
        ∧ Tailer.next 3 false Spec.fs_rotated g1 = Some (Some "second"%string, g2)
        ∧ ∀ fuel, Tailer.next fuel false Spec.fs_rotated g2 = None).
Proof.
  split.
  - intros g env inode Hr Hat He Hdiff.
    pose proof (reachable_inv g Hr) as Hinv. unfold Spec.tailer_inv in Hinv.
    unfold Tailer.step. rewrite Hat in *. rewrite He.
    destruct (Tailer._inode (Tailer.self g)) as [seen|] eqn:Hseen.
    + destruct Hdiff as [Hne | Hlt].
      * assert ((inode =? seen)%nat = false) as ->
          by (apply Nat.eqb_neq; congruence).
        done.
      * apply Nat.ltb_lt in Hlt. rewrite Hlt. by rewrite orb_true_r.
    + rewrite (Hinv eq_refl). simpl. by destruct (_ <? _)%nat.
  - eexists _, _. split; [reflexivity|]. split; [reflexivity|].
    intros [|fuel]; [done|]. apply next_idle_after_second.
Qed.

Lemma tailer_resets_on_rotation_witness :
  Tailer.step false Spec.fs_rotated Spec.tailer_after_first
  = Tailer.Continue
      {| Tailer.self := {| Tailer._offset := 0; Tailer._inode := Some 2%nat;
                           Tailer._last_size := 7 |};
         Tailer.at_point := Tailer.InRead 2 0 |}.
Proof.
  apply (proj1 tailer_resets_on_rotation
           Spec.tailer_after_first Spec.fs_rotated 2%nat).
  - apply reachable_after_first.
  - reflexivity.
  - reflexivity.
  - left. discriminate.
Defined.

(** * Further properties of the code *)

(** ** Store *)

(** X1. [replace_cards] followed by [get_all_cards] gives back exactly the
    dict that was written, whatever the table held before; the other
    tables are untouched. *)
Theorem replace_cards_round_trip (new_cards : gmap Z Z) (s : Store.t) :
  Store.get_all_cards (Store.replace_cards new_cards s) = new_cards
  ∧ Store.metadata (Store.replace_cards new_cards s) = Store.metadata s
  ∧ Store.state (Store.replace_cards new_cards s) = Store.state s
  ∧ Store.pending_deltas (Store.replace_cards new_cards s)
    = Store.pending_deltas s.
Proof.
  split; [|done]. unfold Store.get_all_cards. apply replace_cards_cards.
Qed.

(** X2. [apply_deltas] never removes a row: afterwards the card table has
    a row for exactly the items that had one or that the delta map
    mentions. *)
Theorem apply_deltas_dom (deltas : gmap Z Z) (s : Store.t) :
  dom (Store.cards (Store.apply_deltas deltas s))
  = dom (Store.cards s) ∪ dom deltas.
Proof.
  apply set_eq. intros k.
  rewrite elem_of_union, !elem_of_dom, apply_deltas_lookup.
  destruct (deltas !! k) as [d|] eqn:Hd.
  - split; [intros _; right; by eexists | intros _; by eexists].
  - split; [by left | intros [H|[? H]]; [done | discriminate]].
Qed.

(** X3. [apply_deltas] keeps every quantity at or above 0 provided the
    stored quantities are, and no item without a row receives a negative
    delta. *)
Theorem apply_deltas_keeps_nonneg (deltas : gmap Z Z) (s : Store.t) :
  Spec.all_nonneg (Store.cards s) →
  (∀ k d, deltas !! k = Some d → Store.cards s !! k = None → 0 ≤ d) →
  Spec.all_nonneg (Store.cards (Store.apply_deltas deltas s)).
Proof.
  intros Hs Hd k q. rewrite apply_deltas_lookup.
  destruct (deltas !! k) as [d|] eqn:Hk; [|apply Hs].
  destruct (Store.cards s !! k) as [q0|] eqn:Hq; intros [= <-].
  - lia.
  - by apply (Hd k).
Qed.

Lemma apply_deltas_keeps_nonneg_witness :
  Spec.all_nonneg
    (Store.cards (Store.apply_deltas {[1 := -5; 7 := 2]}
                    (Store.with_cards {[1 := 2]} Store.empty))).
Proof.
  apply (apply_deltas_keeps_nonneg {[1 := -5; 7 := 2]}
           (Store.with_cards {[1 := 2]} Store.empty)).
  - intros k q. simpl. intros [<- <-]%lookup_singleton_Some. lia.
  - intros k d Hd. simpl. rewrite lookup_singleton_None. intros Hk.
    apply lookup_insert_Some in Hd as [[? ?]|[_ Hd]]; [congruence|].
    apply lookup_singleton_Some in Hd as [_ <-]. lia.
Defined.

(** X4. The baseline flag reads back what was last marked: "complete"
    after [mark_baseline_complete], "missing" after [mark_baseline_missing]
    and on a fresh store; writing any other state key leaves it alone, and
    it never reads as the empty string. *)
Theorem baseline_state_round_trip (s : Store.t) :
  Store.baseline_state (Store.mark_baseline_complete s) = "complete"%string
  ∧ Store.baseline_state (Store.mark_baseline_missing s) = "missing"%string
  ∧ Store.baseline_state Store.empty = "missing"%string
  ∧ (∀ key value, key ≠ "baseline"%string →
       Store.baseline_state (Store.set_state key value s)
       = Store.baseline_state s)
  ∧ Store.baseline_state s ≠ EmptyString.
Proof.
  unfold Store.baseline_state, Store.mark_baseline_complete,
    Store.mark_baseline_missing, Store.get_state, Store.set_state. simpl.
  rewrite !lookup_insert_eq. repeat split; try done.
  - intros key value Hne. by rewrite lookup_insert_ne.
  - destruct (Store.state s !! "baseline"%string) as [v|]; [|done].
    destruct (String.eqb v EmptyString) eqn:He; [done|].
    by apply String.eqb_neq in He.
Qed.

(** X5. After [upsert_metadata] an item's metadata is the last row of the
    batch that carries its id, or what was stored before when the batch has
    none; [get_metadata_map] shows its name, set code and rarity. The card
    table, state table and pending queue are untouched. *)
Theorem upsert_metadata_lookup
    (rows : list (Z * string * string * string * string)) (s : Store.t) (k : Z) :
  Store.metadata (Store.upsert_metadata rows s) !! k
  = match Spec.last_row k rows with
    | Some row => Some row
    | None => Store.metadata s !! k
    end
  ∧ Store.get_metadata_map (Store.upsert_metadata rows s) !! k
    = match Spec.last_row k rows with
      | Some (name, set_code, rarity, _) => Some (name, set_code, rarity)
      | None => Store.get_metadata_map s !! k
      end
  ∧ Store.cards (Store.upsert_metadata rows s) = Store.cards s
  ∧ Store.state (Store.upsert_metadata rows s) = Store.state s
  ∧ Store.pending_deltas (Store.upsert_metadata rows s) = Store.pending_deltas s.
Proof.
  assert (Store.metadata (Store.upsert_metadata rows s) !! k
          = match Spec.last_row k rows with
            | Some row => Some row
            | None => Store.metadata s !! k
            end) as Hm.
  { unfold Store.upsert_metadata, Spec.last_row. simpl.
    induction rows as [|[[[[aid name] set_code] rarity] updated_at] rows IH]
      using rev_ind; [done|].
    rewrite !foldl_app. simpl. case_bool_decide as Hk.
    - subst. by rewrite lookup_insert_eq.
    - by rewrite lookup_insert_ne. }
  split; [done|]. split; [|done].
  unfold Store.get_metadata_map. rewrite !lookup_fmap, Hm.
  by destruct (Spec.last_row k rows) as [[[[? ?] ?] ?]|].
Qed.

(** ** Reconciler *)

Section ReconcilerMore.
Import Store Tracker Spec.

Lemma sum_Permutation (xs ys : list Z) : xs ≡ₚ ys → sum xs = sum ys.
Proof.
  unfold sum. induction 1 as [|x xs ys _ IH|x y xs|xs ys zs _ IH1 _ IH2];
    simpl; lia.
Qed.

Lemma handle_snapshot_exports (snapshot : gmap Z Z) now (w : Tracker.t) :
  exports (_handle_snapshot snapshot now w)
  = exports w ++ [cards (store (_handle_snapshot snapshot now w))].
Proof. done. Qed.

Lemma handle_delta_complete_rest deltas raw now (w : Tracker.t) :
  baseline_state (store w) = "complete"%string →
  pending_deltas (store (_handle_delta deltas raw now w).1)
  = pending_deltas (store w)
  ∧ exports (_handle_delta deltas raw now w).1
    = exports w ++ [cards (store (_handle_delta deltas raw now w).1)].
Proof.
  intros Hb. unfold _handle_delta. rewrite Hb. simpl. split; [|done].
  apply apply_deltas_others.
Qed.

(** Queueing touches the pending queue only, whether or not the store
    accepts the entries. *)
Lemma queue_deltas_frame (ts : Py.json) (items : list (Z * Z)) (s : Store.t) :
  cards (queue_deltas ts items s).1 = cards s
  ∧ state (queue_deltas ts items s).1 = state s.
Proof.
  destruct (queue_deltas_prefix ts items s) as (queued & _ & _ & ->). done.
Qed.



Lemma handle_event_complete now (w : Tracker.t) (event : Parser.Event) :
  baseline_state (store w) = "complete"%string →
  baseline_state (store (handle_event now w event).1) = "complete"%string
  ∧ exports (handle_event now w event).1
    = exports w ++ [cards (store (handle_event now w event).1)]
  ∧ (handle_event now w event).2 = None.
Proof.
  intros Hb. destruct event as [snapshot src raw|deltas src raw];
    cbn [handle_event fst snd].
  - destruct (handle_snapshot_drains snapshot now w 0) as (_ & Hb' & _).
    split; [done|]. split; [apply handle_snapshot_exports | done].
  - destruct (handle_delta_complete deltas raw now w 0 Hb) as (_ & Hb' & Hok).
    destruct (handle_delta_complete_rest deltas raw now w Hb) as [_ He].
    done.
Qed.


Lemma process_events_complete now (events : list Parser.Event) :
  ∀ w : Tracker.t,
    baseline_state (store w) = "complete"%string →
    baseline_state (store (process_events now events w)) = "complete"%string
    ∧ List.length (exports (process_events now events w))
      = (List.length (exports w) + List.length events)%nat
    ∧ (events ≠ [] →
       last (exports (process_events now events w))
       = Some (cards (store (process_events now events w)))).
Proof.
  induction events as [|event events IH]; intros w Hb.
  - change (process_events now [] w) with w.
    split; [done|]. split; [simpl; lia | done].
  - rewrite process_events_cons.
    destruct (handle_event_complete now w event Hb) as (Hb' & He & Hok).
    rewrite Hok. destruct (IH _ Hb') as (Hb'' & Hlen & Hlast).
    split; [done|]. split.
    + rewrite Hlen, He, length_app. simpl. lia.
    + intros _. destruct events as [|event' events]; [|by apply Hlast].
      change (process_events now [] ?x) with x. rewrite He. by rewrite last_snoc.
Qed.
End ReconcilerMore.



(** X8. The aggregate of the pending queue does not depend on the order
    of its entries: any reordering of the queue nets to the same map. *)
Theorem aggregate_pending_order_independent
    (pending pending' : list Store.PendingDelta) :
  pending ≡ₚ pending' →
  Tracker.aggregate_pending pending = Tracker.aggregate_pending pending'.
Proof.
  intros Hperm. apply map_eq. intros k.
  rewrite !aggregate_pending_lookup.
  assert (Spec.queued_for k pending ≡ₚ Spec.queued_for k pending') as Hq
    by (unfold Spec.queued_for; by rewrite Hperm).
  destruct (Spec.queued_for k pending) as [|d ds] eqn:H1,
    (Spec.queued_for k pending') as [|d' ds'] eqn:H2.
  - done.
  - by apply Permutation_nil_cons in Hq.
  - symmetry in Hq. by apply Permutation_nil_cons in Hq.
  - f_equal. by apply sum_Permutation.
Qed.

Lemma aggregate_pending_order_independent_witness :
  Tracker.aggregate_pending
    [Store.mkPendingDelta 7 (-1) Py.JNull; Store.mkPendingDelta 1 2 Py.JNull;
     Store.mkPendingDelta 7 3 Py.JNull]
  = Tracker.aggregate_pending
      [Store.mkPendingDelta 7 3 Py.JNull; Store.mkPendingDelta 7 (-1) Py.JNull;
       Store.mkPendingDelta 1 2 Py.JNull].
Proof.
  apply aggregate_pending_order_independent.
  symmetry.
  apply (Permutation_cons_append
           [Store.mkPendingDelta 7 (-1) Py.JNull; Store.mkPendingDelta 1 2 Py.JNull]
           (Store.mkPendingDelta 7 3 Py.JNull)).
Defined.

(** X9. Once the baseline is complete it stays complete under any further
    events, and every event handled from then on makes exactly one export,
    each of the card table as that event left it; so the last export shows
    the current table. *)
Theorem complete_stays_complete
    (now : string) (events : list Parser.Event) (w : Tracker.t) :
  Store.baseline_state (Tracker.store w) = "complete"%string →
  let w' := Tracker.process_events now events w in
  Store.baseline_state (Tracker.store w') = "complete"%string
  ∧ List.length (Tracker.exports w')
    = (List.length (Tracker.exports w) + List.length events)%nat
  ∧ (events ≠ [] →
     last (Tracker.exports w') = Some (Store.cards (Tracker.store w'))).
Proof. intros Hb w'. by apply process_events_complete. Qed.

Lemma complete_stays_complete_witness :
  Store.baseline_state
    (Tracker.store
       (Tracker.process_events "t1"
          [Spec.delta_event {[1 := -2]}; Spec.delta_event {[1 := 3]}]
          (Spec.after_snapshot {[1 := 1]})))
  = "complete"%string.
Proof.
  refine (proj1 (complete_stays_complete "t1"
            [Spec.delta_event {[1 := -2]}; Spec.delta_event {[1 := 3]}]
            (Spec.after_snapshot {[1 := 1]}) _)); reflexivity.
Defined.


Section SeedFacts.
Import Py Store Tracker Spec.

Lemma header_lower_loop_lookup (names : list string) (key : string) :
  ∀ header : gmap string string,
    foldl (fun header name => <[lower name := name]> header) header names !! key
    = match last (List.filter (fun name => String.eqb (lower name) key) names) with
      | Some name => Some name
      | None => header !! key
      end.
Proof.
  induction names as [|name names IH] using rev_ind; intros header; [done|].
  rewrite foldl_app, List.filter_app. simpl.
  destruct (String.eqb (lower name) key) eqn:He.
  - apply String.eqb_eq in He. subst key.
    by rewrite last_snoc, lookup_insert_eq.
  - apply String.eqb_neq in He. rewrite app_nil_r, lookup_insert_ne by done.
    apply IH.
Qed.

Lemma header_lower_Some names key name :
  header_lower names !! key = Some name → name ∈ names ∧ lower name = key.
Proof.
  unfold header_lower. rewrite header_lower_loop_lookup, lookup_empty.
  destruct (last _) as [n|] eqn:Hl; [|done]. intros [= ->].
  apply last_Some in Hl as [l' Hl].
  assert (In name (List.filter (fun n => String.eqb (lower n) key) names)) as Hin
    by (rewrite Hl; apply in_or_app; right; by left).
  apply filter_In in Hin as [Hin He].
  split; [by apply list_elem_of_In | by apply String.eqb_eq].
Qed.

Lemma header_lower_None names key :
  Forall (fun name => lower name ≠ key) names → header_lower names !! key = None.
Proof.
  intros Hall. destruct (header_lower names !! key) as [name|] eqn:Hl; [|done].
  apply header_lower_Some in Hl as [Hin He].
  rewrite Forall_forall in Hall. by destruct (Hall name Hin).
Qed.

Lemma first_header_Some keys header name :
  first_header keys header = Some name →
  ∃ key, key ∈ keys ∧ header !! key = Some name.
Proof.
  induction keys as [|key keys IH]; [done|]. simpl.
  destruct (header !! key) as [n|] eqn:Hk.
  - intros [= ->]. exists key. split; [left | done].
  - intros (key' & Hin & Hk')%IH. exists key'. split; [by right | done].
Qed.

Lemma first_header_None keys header :
  Forall (fun key => header !! key = None) keys → first_header keys header = None.
Proof.
  induction 1 as [|key keys Hk _ IH]; [done|]. simpl. by rewrite Hk.
Qed.

Lemma seed_rows_pairs id_field qty_field (rows : list (gmap string string)) :
  ∀ cards : gmap Z Z,
    seed_rows id_field qty_field rows cards
    = pairs ← seed_pairs id_field qty_field rows;
      Ok (foldl (fun cards '(arena_id, quantity) => <[arena_id := quantity]> cards)
                cards pairs).
Proof.
  induction rows as [|row rows IH]; intros cards; [done|]. simpl.
  destruct (int_field row id_field) as [a|]; [|done]. simpl.
  destruct (int_field row qty_field) as [q|]; [|done]. simpl.
  rewrite IH. by destruct (seed_pairs id_field qty_field rows).
Qed.

Lemma insert_loop_lookup (pairs : list (Z * Z)) (k : Z) :
  ∀ cards : gmap Z Z,
    foldl (fun cards '(arena_id, quantity) => <[arena_id := quantity]> cards)
          cards pairs !! k
    = match last_value k pairs with
      | Some q => Some q
      | None => cards !! k
      end.
Proof.
  unfold last_value.
  induction pairs as [|[a q] pairs IH] using rev_ind; intros cards; [done|].
  rewrite !foldl_app. simpl. case_bool_decide as Hk.
  - subst. by rewrite lookup_insert_eq.
  - rewrite lookup_insert_ne by done. apply IH.
Qed.
End SeedFacts.

(** X11. A seed file none of whose column names is, ignoring letter
    case, one of arena_id, grpid, titleid, id, or none of whose column names
    is one of quantity, qty, count, is refused with [ValueError]; the
    import does not happen. *)
Theorem seed_requires_id_and_quantity_columns
    (file : Tracker.seed_csv) (w : Tracker.t) :
  Forall (fun name => Py.lower name ∉ Spec.seed_id_keys) (Tracker.fieldnames file)
  ∨ Forall (fun name => Py.lower name ∉ Spec.seed_qty_keys) (Tracker.fieldnames file) →
  Tracker._read_seed_csv file = Py.Raise Py.ValueError
  ∧ Tracker.seed_from_csv file w = Py.Raise Py.ValueError.
Proof.
  intros Hmissing.
  assert (Tracker._read_seed_csv file = Py.Raise Py.ValueError) as Hr.
  { unfold Tracker._read_seed_csv.
    destruct Hmissing as [Hid | Hqty].
    - rewrite first_header_None; [done|].
      apply Forall_forall. intros key Hkey. apply header_lower_None.
      eapply Forall_impl; [exact Hid|]. simpl. intros name Hn Heq.
      apply Hn. by rewrite Heq.
    - rewrite (first_header_None ["quantity"; "qty"; "count"]%string).
      + by destruct (Tracker.first_header _ _).
      + apply Forall_forall. intros key Hkey. apply header_lower_None.
        eapply Forall_impl; [exact Hqty|]. simpl. intros name Hn Heq.
        apply Hn. by rewrite Heq. }
  split; [done|]. unfold Tracker.seed_from_csv. by rewrite Hr.
Qed.

Lemma seed_requires_id_and_quantity_columns_witness :
  Tracker.seed_from_csv
    {| Tracker.fieldnames := ["card"; "Quantity"]%string; Tracker.rows := [] |}
    Tracker.init
  = Py.Raise Py.ValueError.
Proof.
  refine (proj2 (seed_requires_id_and_quantity_columns
                   {| Tracker.fieldnames := ["card"; "Quantity"]%string;
                      Tracker.rows := [] |} Tracker.init _)).
  left. repeat constructor; vm_compute; intros H;
    repeat (apply elem_of_cons in H as [H|H]; [discriminate|]);
    by apply elem_of_nil in H.
Defined.

(** X12. A seed file that is accepted was read from two of its columns,
    whose names are, ignoring letter case, a recognised id name and a
    recognised quantity name; every row contributes the integers of these
    two cells, a later row replacing an earlier one with the same id, and
    the quantities are stored as they stand. *)
Theorem read_seed_csv_rows (file : Tracker.seed_csv) (cards : gmap Z Z) :
  Tracker._read_seed_csv file = Py.Ok cards →
  ∃ id_field qty_field pairs,
    id_field ∈ Tracker.fieldnames file
    ∧ qty_field ∈ Tracker.fieldnames file
    ∧ Py.lower id_field ∈ Spec.seed_id_keys
    ∧ Py.lower qty_field ∈ Spec.seed_qty_keys
    ∧ Spec.seed_pairs id_field qty_field (Tracker.rows file) = Py.Ok pairs
    ∧ ∀ k, cards !! k = Spec.last_value k pairs.
Proof.
  unfold Tracker._read_seed_csv.
  destruct (Tracker.first_header ["arena_id"; "grpid"; "titleid"; "id"]%string _)
    as [id_field|] eqn:Hid; [|done].
  destruct (Tracker.first_header ["quantity"; "qty"; "count"]%string _)
    as [qty_field|] eqn:Hqty; [|done].
  destruct (_ || _); [done|].
  rewrite seed_rows_pairs.
  destruct (Spec.seed_pairs id_field qty_field (Tracker.rows file))
    as [pairs|] eqn:Hp; [|done].
  simpl. intros [= <-].
  apply first_header_Some in Hid as (ikey & Hik & Hih).
  apply first_header_Some in Hqty as (qkey & Hqk & Hqh).
  apply header_lower_Some in Hih as [Hiin Hil].
  apply header_lower_Some in Hqh as [Hqin Hql].
  exists id_field, qty_field, pairs.
  split; [done|]. split; [done|]. split; [by rewrite Hil|].
  split; [by rewrite Hql|]. split; [done|].
  intros k. rewrite insert_loop_lookup, lookup_empty.
  by destruct (Spec.last_value k pairs).
Qed.

Lemma read_seed_csv_rows_witness :
  ∃ id_field qty_field pairs,
    id_field ∈ Tracker.fieldnames Spec.seed_negative
    ∧ qty_field ∈ Tracker.fieldnames Spec.seed_negative
    ∧ Py.lower id_field ∈ Spec.seed_id_keys
    ∧ Py.lower qty_field ∈ Spec.seed_qty_keys
    ∧ Spec.seed_pairs id_field qty_field (Tracker.rows Spec.seed_negative)
      = Py.Ok pairs
    ∧ ∀ k, ({[5 := -3]} : gmap Z Z) !! k = Spec.last_value k pairs.
Proof.
  apply (read_seed_csv_rows Spec.seed_negative {[5 := -3]}). reflexivity.
Defined.



(** ** Extractor *)

Section ExtractorMore.
Import Py Parser Spec.
#[local] Arguments _extract_first_int : simpl never.
#[local] Arguments _extract_arena_id : simpl never.
#[local] Arguments _normalise_deltas : simpl never.
#[local] Arguments _parse_json_object : simpl never.

Lemma int_overflow_only_inf (v : json) :
  int v = Raise OverflowError → ∃ negative, v = JFloat (FInf negative).
Proof.
  destruct v as [| | |[| |]|s| |]; simpl; try done.
  - by eexists.
  - by destruct (int_of_str s).
Qed.

Lemma dict_get_elem_of key (entry : list (string * json)) v :
  dict_get key entry = Some v → (key, v) ∈ entry.
Proof.
  induction entry as [|[k v'] entry IH]; [done|]. simpl.
  destruct (String.eqb k key) eqn:He.
  - apply String.eqb_eq in He. intros [= ->]. subst. left.
  - intros H. right. by apply IH.
Qed.

Lemma get_not_none_elem_of key (entry : list (string * json)) v :
  get_not_none key entry = Some v → (key, v) ∈ entry.
Proof.
  unfold get_not_none. destruct (dict_get key entry) as [v'|] eqn:Hg; [|done].
  intros Hv. apply dict_get_elem_of.
  destruct v'; by (discriminate Hv || (injection Hv as <-)).
Qed.

Lemma snapshot_loop_nonneg (entries : list (list (string * json))) :
  ∀ acc cards,
    snapshot_loop entries acc = Ok cards → all_nonneg acc → all_nonneg cards.
Proof.
  induction entries as [|entry entries IH]; intros acc cards; simpl.
  - by intros [= <-].
  - destruct (_extract_arena_id entry) as [[id|]|]; simpl; [|apply IH|done].
    destruct (_extract_first_int entry _SNAPSHOT_COUNT_KEYS) as [[q|]|];
      simpl; [|apply IH|done].
    intros Hl Hacc. apply (IH _ _ Hl).
    intros k v [[_ <-]|[_ Hk]]%lookup_insert_Some; [lia | by apply (Hacc k)].
Qed.

Lemma delta_events_loop_sources (pairs : list (string * json)) :
  ∀ found,
    delta_events_loop pairs = Ok found →
    Forall (fun '(source, deltas) =>
              mem source _DELTA_EVENT_KEYS = true ∧ deltas ≠ ∅) found.
Proof.
  induction pairs as [|[key value] pairs IH]; intros found; simpl.
  - intros [= <-]. constructor.
  - destruct (mem key _DELTA_EVENT_KEYS) eqn:Hk; [|apply IH].
    destruct (_normalise_deltas value) as [deltas|]; [|done]. simpl.
    destruct (delta_events_loop pairs) as [tail|]; [|done]. simpl.
    intros [= <-]. specialize (IH tail eq_refl).
    destruct (nonempty deltas) eqn:Hne; [|done].
    constructor; [|done]. split; [done | by apply nonempty_true].
Qed.

Lemma parse_snippets_concat (loads : string → res json) (snippets : list string) :
  ∀ acc events,
    parse_snippets loads snippets acc = Ok events →
    events = acc ++ List.concat (omap (snippet_events loads) snippets).
Proof.
  induction snippets as [|snippet snippets IH]; intros acc events; simpl.
  - intros [= <-]. by rewrite app_nil_r.
  - unfold snippet_events at 1.
    destruct (loads snippet) as [data|[]]; try done.
    + destruct (_parse_json_object data) as [found|]; [|done]. simpl.
      intros ->%IH. by rewrite <- app_assoc.
    + apply IH.
Qed.

Lemma scan_braces_spans (text : string) (rest : string) :
  ∀ idx depth start,
    (∀ p, String.get p rest = String.get (idx + p) text) →
    (∀ st, start = Some st →
           (st < idx)%nat ∧ String.get st text = Some "{"%char) →
    Forall brace_span (scan_braces text rest idx depth start).
Proof.
  induction rest as [|char rest IH]; intros idx depth start Hrest Hstart;
    [constructor|].
  assert (String.get idx text = Some char) as Hchar
    by (rewrite <- (Nat.add_0_r idx); by rewrite <- Hrest).
  assert (∀ p, String.get p rest = String.get (S idx + p) text) as Hrest'.
  { intros p. pose proof (Hrest (S p)) as Hp. simpl in Hp. rewrite Hp.
    f_equal. lia. }
  simpl. destruct (Ascii.eqb char "{"%char) eqn:Hopen.
  { apply Ascii.eqb_eq in Hopen. subst char. apply IH; [done|].
    intros st. destruct (depth =? 0)%nat.
    - intros [= <-]. split; [lia | done].
    - intros Hst. destruct (Hstart st Hst). split; [lia | done]. }
  destruct (Ascii.eqb char "}"%char) eqn:Hclose.
  - apply Ascii.eqb_eq in Hclose. subst char.
    destruct depth as [|[|depth]].
    + apply IH; [done|]. intros st Hst. destruct (Hstart st Hst).
      split; [lia | done].
    + destruct start as [st|].
      * destruct (Hstart st eq_refl) as [Hlt Hget].
        constructor; [|by apply IH]. split.
        -- rewrite substring_correct1 by lia. done.
        -- exists (idx - st)%nat. split.
           ++ rewrite substring_correct1 by lia.
              by replace (idx - st + st)%nat with idx by lia.
           ++ apply substring_correct2. lia.
      * by apply IH.
    + apply IH; [done|]. intros st Hst. destruct (Hstart st Hst).
      split; [lia | done].
  - apply IH; [done|]. intros st Hst. destruct (Hstart st Hst).
    split; [lia | done].
Qed.

Lemma scan_braces_no_open (text : string) (rest : string) :
  ∀ idx start,
    contains "{"%char rest = false → scan_braces text rest idx O start = [].
Proof.
  induction rest as [|char rest IH]; intros idx start; [done|]. simpl.
  intros [Hc Hrest]%orb_false_elim. rewrite Hc.
  destruct (Ascii.eqb char "}"%char); by apply IH.
Qed.
End ExtractorMore.

(** X29. What [_normalise_deltas] returns: an item id is bound exactly
    when some entry with a non-zero change (count times sign) resolves to
    it, and it is bound to the sum of those changes. *)
Theorem normalise_deltas_lookup (value : Py.json) (deltas : gmap Z Z) :
  Parser._normalise_deltas value = Py.Ok deltas →
  ∃ changes,
    Spec.nonzero_changes (Parser._collect_card_like_entries value) = Py.Ok changes
    ∧ Forall (fun '(_, change) => change ≠ 0) changes
    ∧ ∀ k, deltas !! k = match Spec.changes_for k changes with
                         | [] => None
                         | cs => Some (Spec.sum cs)
                         end.
Proof.
  unfold Parser._normalise_deltas. rewrite normalise_loop_changes.
  destruct (Spec.nonzero_changes _) as [changes|e] eqn:Hc; [|done].
  simpl. intros [= <-]. exists changes. split; [done|]. split.
  - clear -Hc. revert changes Hc.
    induction (Parser._collect_card_like_entries value)
      as [|[entry m] entries IH]; intros changes Hc; simpl in Hc.
    + by injection Hc as <-.
    + destruct (Parser.entry_change _ _) as [c|]; [|done]. simpl in Hc.
      destruct (Spec.nonzero_changes entries) as [tail|]; [|done].
      simpl in Hc. injection Hc as <-. specialize (IH tail eq_refl).
      destruct c as [[id change]|]; [|done].
      destruct (change =? 0) eqn:Hz; [done|].
      constructor; [|done]. by apply Z.eqb_neq.
  - intros k. rewrite accumulate_lookup, lookup_empty.
    by destruct (Spec.changes_for k changes).
Qed.

Lemma normalise_deltas_lookup_witness :
  ∃ changes,
    Spec.nonzero_changes (Parser._collect_card_like_entries Spec.payload_cancel)
    = Py.Ok changes
    ∧ Forall (fun '(_, change) => change ≠ 0) changes
    ∧ ∀ k, ({[1 := 0]} : gmap Z Z) !! k
           = match Spec.changes_for k changes with
             | [] => None
             | cs => Some (Spec.sum cs)
             end.
Proof.
  apply (normalise_deltas_lookup Spec.payload_cancel {[1 := 0]}).
  reflexivity.
Defined.

(** X14. [_extract_first_int] never lets a [TypeError] or [ValueError]
    out: the only exception it can raise is the [OverflowError] of
    [int(..)] on an infinite float held by the entry. *)
Theorem extract_first_int_only_overflow
    (entry : list (string * Py.json)) (keys : list string) (e : Py.exn) :
  Parser._extract_first_int entry keys = Py.Raise e →
  e = Py.OverflowError
  ∧ ∃ key negative, (key, Py.JFloat (Py.FInf negative)) ∈ entry.
Proof.
  induction keys as [|key keys IH]; [done|]. simpl.
  set (v1 := Py.get_not_none key entry).
  set (v2 := match v1 with
             | None => Py.get_not_none (Py.capitalize key) entry
             | _ => v1 end).
  set (v3 := match v2 with
             | None => Py.get_not_none (Py.upper key) entry
             | _ => v2 end).
  assert (∀ v, v3 = Some v → ∃ k, (k, v) ∈ entry) as Hin.
  { intros v. subst v3 v2 v1.
    destruct (Py.get_not_none key entry) as [a|] eqn:H1.
    { intros [= <-]. eexists. by apply get_not_none_elem_of. }
    destruct (Py.get_not_none (Py.capitalize key) entry) as [b|] eqn:H2.
    { intros [= <-]. eexists. by apply get_not_none_elem_of. }
    intros H3. eexists. by apply get_not_none_elem_of. }
  destruct v3 as [v|]; [|apply IH].
  destruct (Py.int v) as [z|[]] eqn:Hint; try done; try apply IH.
  - intros [= <-]. split; [done|].
    destruct (int_overflow_only_inf v Hint) as [negative ->].
    destruct (Hin _ eq_refl) as [k Hk]. by exists k, negative.
  - exfalso. clear -Hint.
    destruct v as [| | |[| |]|s| |]; simpl in Hint; try discriminate.
    by destruct (Py.int_of_str s).
Qed.

Lemma extract_first_int_only_overflow_witness :
  Py.OverflowError = Py.OverflowError
  ∧ ∃ key negative,
      (key, Py.JFloat (Py.FInf negative))
        ∈ [("qty"%string, Py.JFloat (Py.FInf false))].
Proof.
  apply (extract_first_int_only_overflow
           [("qty"%string, Py.JFloat (Py.FInf false))]
           Parser._SNAPSHOT_COUNT_KEYS Py.OverflowError).
  reflexivity.
Defined.

(** X15. The cards of a snapshot are never negative: every quantity
    [_extract_snapshot_cards] returns is at least 0. *)
Theorem snapshot_cards_nonneg (obj : Py.json) (cards : gmap Z Z) :
  Parser._extract_snapshot_cards obj = Py.Ok cards → Spec.all_nonneg cards.
Proof.
  intros Hc. apply (snapshot_loop_nonneg _ _ _ Hc).
  intros k q. by rewrite lookup_empty.
Qed.

Lemma snapshot_cards_nonneg_witness :
  Spec.all_nonneg ({[1 := 2]} : gmap Z Z).
Proof. apply (snapshot_cards_nonneg Spec.obj_snapshot). reflexivity. Defined.

(** X16. Every event [_parse_json_object] returns for an object carries
    that object as [raw] and a non-empty map; a delta event is named after
    one of the delta-indicating keys, a snapshot event is named "snapshot"
    and holds no negative quantity. A value that is not an object yields no
    event. *)
Theorem parse_json_object_events_ok (obj : Py.json) (events : list Parser.Event) :
  Parser._parse_json_object obj = Py.Ok events →
  Forall (Spec.event_ok obj) events
  ∧ (Parser.is_dict obj = false → events = []).
Proof.
  unfold Parser._parse_json_object.
  destruct (Parser.is_dict obj); [|intros [= <-]; by split].
  destruct (Parser._extract_delta_events obj) as [found|] eqn:Hf; [|done].
  simpl. pose proof (delta_events_loop_sources _ _ Hf) as Hsrc.
  intros Hev. split; [|done].
  destruct (map _ (List.filter _ found)) as [|ev evs] eqn:Hm.
  - destruct (Parser._extract_snapshot_cards obj) as [cards|] eqn:Hc; [|done].
    simpl in Hev. destruct (Parser.nonempty cards) eqn:Hne;
      injection Hev as <-; constructor; [|constructor].
    split; [by apply nonempty_true|].
    split; [|done]. apply (snapshot_loop_nonneg _ _ _ Hc).
    intros k q. by rewrite lookup_empty.
  - injection Hev as <-. rewrite <- Hm. apply Forall_forall.
    intros ev' ([src d] & -> & Hin)%list_elem_of_fmap.
    apply list_elem_of_In, filter_In in Hin as [Hin _].
    apply list_elem_of_In in Hin.
    rewrite Forall_forall in Hsrc. destruct (Hsrc _ Hin) as [Hk Hne].
    by split.
Qed.

(** X17. The events of a line are those of its snippets, concatenated in
    snippet order; a snippet the decoder rejects contributes nothing and
    does not stop the line. *)
Theorem parse_line_concatenates
    (loads : string → Py.res Py.json) (line : string) (events : list Parser.Event) :
  Parser.parse_line loads line = Py.Ok events →
  events = List.concat (omap (Spec.snippet_events loads)
                             (Parser._extract_json_strings line)).
Proof.
  unfold Parser.parse_line. intros H.
  by apply parse_snippets_concat in H.
Qed.

Lemma parse_line_concatenates_witness :
  [Parser.DeltaEvent {[55555 := 2]} "inventorydelta" Spec.obj_add]
  = List.concat (omap (Spec.snippet_events Spec.loads_sample)
                      (Parser._extract_json_strings
                         ("{not json} " ++ Spec.text_add))).
Proof.
  apply (parse_line_concatenates Spec.loads_sample
           ("{not json} " ++ Spec.text_add)).
  reflexivity.
Defined.

(** X18. Every snippet [_extract_json_strings] cuts out of a line opens
    with a left brace and closes with a right brace; a line with no left
    brace gives no snippet, so [parse_line] returns no event for it
    whatever the decoder does. *)
Theorem extract_json_strings_spans (text : string) :
  Forall Spec.brace_span (Parser._extract_json_strings text)
  ∧ (Spec.contains "{"%char text = false →
     Parser._extract_json_strings text = []
     ∧ ∀ loads, Parser.parse_line loads text = Py.Ok []).
Proof.
  split.
  - apply scan_braces_spans; [done | done].
  - intros Hno.
    assert (Parser._extract_json_strings text = []) as He
      by (by apply scan_braces_no_open).
    split; [done|]. intros loads. unfold Parser.parse_line. by rewrite He.
Qed.

Lemma extract_json_strings_spans_witness :
  Parser._extract_json_strings "no object on this line" = []
  ∧ Parser.parse_line Spec.loads_sample "no object on this line" = Py.Ok [].
Proof.
  destruct (proj2 (extract_json_strings_spans "no object on this line") eq_refl)
    as [He Hp].
  split; [exact He | apply Hp].
Defined.

Section CollectFacts.
Import Py Parser Spec.

(** Induction over decoded documents, through lists and objects. *)
Lemma json_nested_ind (P : json → Prop) :
  P JNull →
  (∀ b, P (JBool b)) →
  (∀ z, P (JInt z)) →
  (∀ f, P (JFloat f)) →
  (∀ s, P (JStr s)) →
  (∀ items, Forall P items → P (JList items)) →
  (∀ items, Forall (fun kv => P kv.2) items → P (JDict items)) →
  ∀ v, P v.
Proof.
  intros Hnull Hbool Hint Hfloat Hstr Hlist Hdict.
  fix IH 1. intros [|b|z|f|s|items|items].
  - exact Hnull.
  - apply Hbool.
  - apply Hint.
  - apply Hfloat.
  - apply Hstr.
  - apply Hlist.
    exact ((fix go (l : list json) : Forall P l :=
              match l with
              | [] => @List.Forall_nil _ P
              | x :: xs => @List.Forall_cons _ P x xs (IH x) (go xs)
              end) items).
  - apply Hdict.
    exact ((fix go (l : list (string * json)) : Forall (fun kv => P kv.2) l :=
              match l with
              | [] => @List.Forall_nil _ _
              | kv :: kvs =>
                  @List.Forall_cons _ (fun kv => P kv.2) kv kvs (IH kv.2) (go kvs)
              end) items).
Qed.

Lemma Forall_list_filter {A} (P : A → Prop) (f : A → bool) (l : list A) :
  Forall P l → Forall P (List.filter f l).
Proof.
  rewrite !Forall_forall. intros H x Hin.
  apply list_elem_of_In, filter_In in Hin as [Hin _].
  by apply H, list_elem_of_In.
Qed.

Lemma Forall_list_filter_holds {A} (f : A → bool) (l : list A) :
  Forall (fun x => f x = true) (List.filter f l).
Proof.
  rewrite Forall_forall. intros x Hin.
  by apply list_elem_of_In, filter_In in Hin as [_ Hf].
Qed.

Lemma collect_signs (value : json) :
  Forall (fun '(_, multiplier) => multiplier = 1 ∨ multiplier = -1)
         (_collect_card_like_entries value).
Proof.
  induction value as [| | | | |items IH|items IH] using json_nested_ind;
    try (simpl; constructor).
  - simpl. apply Forall_list_filter.
    induction IH as [|item items Hitem _ IHitems]; [constructor|].
    apply Forall_app. split; [exact Hitem | exact IHitems].
  - simpl. apply Forall_list_filter.
    induction IH as [|[key inner] items Hinner _ IHitems]; [constructor|].
    apply Forall_app. split; [|exact IHitems].
    destruct (mem (lower key) _).
    { apply Forall_fmap, Forall_forall. intros item _. simpl. by left. }
    destruct (mem (lower key) _).
    { apply Forall_fmap, Forall_forall. intros item _. simpl. by right. }
    destruct (mem (lower key) _).
    { apply Forall_fmap, Forall_forall. intros item _. simpl. by left. }
    exact Hinner.
Qed.

Lemma collect_dicts (value : json) :
  Forall (fun '(entry, _) => is_dict entry = true)
         (_collect_card_like_entries value).
Proof.
  destruct value; simpl; try constructor.
  - eapply Forall_impl; [apply Forall_list_filter_holds|]. by intros [e m].
  - eapply Forall_impl; [apply Forall_list_filter_holds|]. by intros [e m].
Qed.
End CollectFacts.

(** X19. Every entry [_collect_card_like_entries] collects is an object,
    and its multiplier is +1 or -1: a collected count only ever changes
    sign. *)
Theorem collect_card_like_entries_signed (value : Py.json) :
  Forall (fun '(entry, multiplier) =>
            Parser.is_dict entry = true ∧ (multiplier = 1 ∨ multiplier = -1))
         (Parser._collect_card_like_entries value).
Proof.
  pose proof (collect_signs value) as Hs.
  pose proof (collect_dicts value) as Hd.
  rewrite Forall_forall in *. intros [entry m] Hin.
  split; [apply (Hd _ Hin) | apply (Hs _ Hin)].
Qed.

(** ** Metadata merger *)

(** X20. [_prefer] is a total choice: if the new candidate is not
    preferred to the current one, the current one is preferred to the new
    one. On a full tie (same kind, same release date) the new candidate is
    preferred, so of two equal candidates the later one in the input is
    kept. *)
Theorem prefer_total_and_ties_to_new
    (str : Py.json → string) (new current : list (string * Py.json)) :
  (Mapping._prefer str new current = false →
   Mapping._prefer str current new = true)
  ∧ (Spec.is_promo str new = Spec.is_promo str current →
     Spec.released str new = Spec.released str current →
     Mapping._prefer str new current = true).
Proof.
  unfold Mapping._prefer, Spec.is_promo, Spec.released.
  destruct (String.eqb (str (Mapping.get_or_empty "set_type" current)) "promo");
    destruct (String.eqb (str (Mapping.get_or_empty "set_type" new)) "promo");
    simpl; split; try done.
  all: try (intros _ ->; apply Is_true_true; reflexivity).
  all: intros Hle;
    destruct (total String.le
                (str (Mapping.get_or_empty "released_at" new))
                (str (Mapping.get_or_empty "released_at" current)))
      as [H|H]; apply Is_true_true in H; congruence.
Qed.

Lemma prefer_total_and_ties_to_new_witness :
  Mapping._prefer Spec.str_sample Spec.card_promo Spec.card_promo = true.
Proof.
  apply (proj2 (prefer_total_and_ties_to_new
                  Spec.str_sample Spec.card_promo Spec.card_promo));
    reflexivity.
Defined.

(** X21. [_write_mapping] writes one metadata row per chosen id and
    reports their number: afterwards a chosen id holds the name, set and
    rarity of its chosen record under the merge's timestamp, every other id
    keeps the metadata it had, and the card table, the state table and the
    pending queue are untouched. *)
Theorem write_mapping_updates_metadata
    (str : Py.json → string) (mapping : list (list (string * Py.json)))
    (timestamp : string) (s s' : Store.t) (n : nat) :
  Mapping._write_mapping str mapping timestamp s = Py.Ok (s', n) →
  ∃ chosen,
    Mapping.choose str mapping ∅ = Py.Ok chosen
    ∧ n = size chosen
    ∧ (∀ k, Store.metadata s' !! k
            = match chosen !! k with
              | Some card =>
                  Some (str (Mapping.get_or_empty "name" card),
                        str (Mapping.get_or_empty "set" card),
                        str (Mapping.get_or_empty "rarity" card), timestamp)
              | None => Store.metadata s !! k
              end)
    ∧ Store.cards s' = Store.cards s
    ∧ Store.state s' = Store.state s
    ∧ Store.pending_deltas s' = Store.pending_deltas s.
Proof.
  unfold Mapping._write_mapping.
  destruct (Mapping.choose str mapping ∅) as [chosen|]; [|done].
  simpl. intros [= <- <-]. exists chosen. split; [done|].
  split; [by rewrite length_map, length_map_to_list|].
  destruct (map_to_list chosen) as [|entry entries] eqn:Hl.
  - apply map_to_list_empty_iff in Hl as ->. simpl.
    split; [|done]. intros k. by rewrite lookup_empty.
  - rewrite <- Hl.
    destruct (map (Mapping.row_of str timestamp) (map_to_list chosen))
      as [|row rows] eqn:Hrows; [by rewrite Hl in Hrows|].
    rewrite <- Hrows. split; [|done]. intros k.
    unfold Store.upsert_metadata. simpl.
    rewrite (upsert_rows_lookup str timestamp (map_to_list chosen) k
               (NoDup_fst_map_to_list chosen)).
    by rewrite list_to_map_to_list.
Qed.

Lemma write_mapping_updates_metadata_witness :
  ∃ chosen,
    Mapping.choose Spec.str_sample [Spec.card_promo; Spec.card_main] ∅
    = Py.Ok chosen
    ∧ 1%nat = size chosen.
Proof.
  destruct (write_mapping_updates_metadata Spec.str_sample
              [Spec.card_promo; Spec.card_main] "now" Store.empty
              (Store.upsert_metadata [(1, "Main", "main", "rare", "now")]%string
                 Store.empty) 1 eq_refl)
    as (chosen & Hc & Hn & _).
  by exists chosen.
Defined.

(** ** Tailer *)

Section TailerMore.
Import Tailer Spec.

Lemma drop_bytes_add (a b : nat) (s : string) :
  drop_bytes (a + b) s = drop_bytes b (drop_bytes a s).
Proof.
  revert s. induction a as [|a IH]; intros s; [done|].
  destruct s as [|c s]; simpl; [by destruct b | apply IH].
Qed.

Lemma drop_bytes_length (n : nat) (s : string) :
  String.length (drop_bytes n s) = (String.length s - n)%nat.
Proof.
  revert s. induction n as [|n IH]; intros s; simpl; [lia|].
  destruct s as [|c s]; simpl; [done | apply IH].
Qed.

Lemma drop_bytes_app (old more : string) :
  drop_bytes (String.length old) (old ++ more) = more.
Proof. induction old as [|c old IH]; [by destruct more | exact IH]. Qed.

Lemma drop_bytes_all (s : string) :
  drop_bytes (String.length s) s = EmptyString.
Proof. induction s as [|c s IH]; [done | exact IH]. Qed.

Lemma first_line_cons (c : ascii) (s : string) :
  Ascii.eqb c "010"%char = false →
  Ascii.eqb c "013"%char = false →
  first_line (String c s)
  = (String c (first_line s).1, S (first_line s).2).
Proof. intros Hc Hr. simpl. rewrite Hc, Hr. by destruct (first_line s). Qed.

Lemma split_lines_cons (c : ascii) (s : string) :
  Ascii.eqb c "010"%char = false →
  Ascii.eqb c "013"%char = false →
  split_lines (String c s)
  = match split_lines s with
    | [] => [String c EmptyString]
    | line :: lines => String c line :: lines
    end.
Proof. intros Hc Hr. simpl. by rewrite Hc, Hr. Qed.

Lemma first_line_cr (c : ascii) (s : string) :
  first_line (String "013"%char (String c s))
  = (String "010"%char EmptyString,
     if Ascii.eqb c "010"%char then 2%nat else 1%nat).
Proof. simpl. by destruct (Ascii.eqb c "010"%char). Qed.

Lemma split_lines_cr (c : ascii) (s : string) :
  split_lines (String "013"%char (String c s))
  = EmptyString
      :: split_lines (if Ascii.eqb c "010"%char then s else String c s).
Proof.
  change (split_lines (String "013"%char (String c s)))
    with (if Ascii.eqb c "010"%char then EmptyString :: split_lines s
          else EmptyString :: split_lines (String c s)).
  by destruct (Ascii.eqb c "010"%char).
Qed.

(** A line read is empty only at the end of the file, and never takes up
    more bytes than there are. *)
Lemma first_line_consumed (s : string) :
  ((first_line s).2 ≤ String.length s)%nat
  ∧ ((first_line s).1 = EmptyString → s = EmptyString).
Proof.
  induction s as [|c s [IHle IHnil]]; [done|].
  destruct (Ascii.eqb c "010"%char) eqn:Hc.
  { simpl. rewrite Hc. simpl. split; [lia | done]. }
  destruct (Ascii.eqb c "013"%char) eqn:Hr.
  { simpl. rewrite Hc, Hr.
    destruct s as [|c' s]; [simpl; split; [lia | done]|].
    destruct (Ascii.eqb c' "010"%char); simpl; split; try lia; done. }
  rewrite (first_line_cons c s Hc Hr). simpl. split; [lia | done].
Qed.

Lemma rstrip_newline_cons (c : ascii) (s : string) :
  Ascii.eqb c "010"%char = false →
  rstrip_newline (String c s) = String c (rstrip_newline s).
Proof. intros Hc. simpl. rewrite Hc. by destruct (rstrip_newline s). Qed.

(** The first line read and the lines of what is left make up the lines
    of the text. *)
Lemma split_lines_first (c : ascii) (s : string) :
  split_lines (String c s)
  = rstrip_newline (first_line (String c s)).1
      :: split_lines (drop_bytes (first_line (String c s)).2 (String c s)).
Proof.
  revert c. induction s as [|c' s IH]; intros c.
  - destruct (Ascii.eqb c "010"%char) eqn:Hc; [simpl; by rewrite Hc|].
    destruct (Ascii.eqb c "013"%char) eqn:Hr; [simpl; by rewrite Hc, Hr|].
    rewrite (first_line_cons c _ Hc Hr), (split_lines_cons c _ Hc Hr).
    simpl. by rewrite Hc.
  - destruct (Ascii.eqb c "010"%char) eqn:Hc.
    { cbn [split_lines first_line]. rewrite Hc. done. }
    destruct (Ascii.eqb c "013"%char) eqn:Hr.
    { apply Ascii.eqb_eq in Hr. subst c.
      rewrite split_lines_cr, first_line_cr.
      by destruct (Ascii.eqb c' "010"%char). }
    rewrite (first_line_cons c _ Hc Hr), (split_lines_cons c _ Hc Hr).
    rewrite (IH c'). cbn [fst snd drop_bytes].
    by rewrite rstrip_newline_cons.
Qed.

Lemma split_lines_nil (s : string) : split_lines s = [] → s = EmptyString.
Proof.
  destruct s as [|c s]; [done|]. simpl.
  destruct (Ascii.eqb c "010"%char); [done|].
  destruct (Ascii.eqb c "013"%char).
  - destruct s as [|c' s]; [done|]. by destruct (Ascii.eqb c' "010"%char).
  - by destruct (split_lines s).
Qed.

(** Reading on from a position yields the lines of what lies beyond it,
    one per call, and leaves the handle at the end of the file. *)
Lemma read_lines (stop : bool) (env : fs) (me : FileTailer) (handle : nat)
    (n : nat) :
  ∀ pos,
    List.length (split_lines (drop_bytes pos (data env handle))) = n →
    take_lines n stop env {| self := me; at_point := InRead handle pos |}
    = Some (split_lines (drop_bytes pos (data env handle)),
            {| self := me;
               at_point :=
                 InRead handle
                   (pos + String.length (drop_bytes pos (data env handle))) |}).
Proof.
  induction n as [|n IH]; intros pos Hn.
  - apply nil_length_inv in Hn. rewrite Hn.
    apply split_lines_nil in Hn. rewrite Hn. simpl.
    by rewrite Nat.add_0_r.
  - destruct (drop_bytes pos (data env handle)) as [|c rest] eqn:Hrest;
      [done|].
    rewrite split_lines_first in Hn |- *.
    destruct (first_line_consumed (String c rest)) as [Hle Hnil].
    destruct (first_line (String c rest)) as [line consumed] eqn:Hfirst.
    cbn [fst snd] in *.
    assert (readline (data env handle) pos = (line, consumed)) as Hread
      by (unfold readline; by rewrite Hrest).
    assert (drop_bytes (pos + consumed) (data env handle)
            = drop_bytes consumed (String c rest)) as Hnext
      by (by rewrite drop_bytes_add, Hrest).
    cbn [take_lines next step at_point]. rewrite Hread.
    destruct line as [|c0 line0] eqn:Hl; [by specialize (Hnil eq_refl)|].
    rewrite <- Hl in *. cbn [self].
    simpl in Hn. injection Hn as Hn. rewrite <- Hnext in Hn.
    rewrite (IH _ Hn), Hnext.
    assert ((pos + consumed
             + String.length (drop_bytes consumed (String c rest)))%nat
            = (pos + String.length (String c rest))%nat) as ->
      by (rewrite drop_bytes_length; lia).
    done.
Qed.
End TailerMore.

(** X22. While the log file is missing the tailer yields nothing and does
    not fail: each poll forgets the remembered identity and puts the offset
    back to 0, however long it goes on. *)
Theorem tailer_idles_while_missing (env : Tailer.fs) (g : Tailer.gen) :
  Tailer.at_point g = Tailer.AtPoll →
  Tailer.entry env = None →
  Tailer.step false env g
  = Tailer.Continue
      {| Tailer.self :=
           {| Tailer._offset := 0; Tailer._inode := None;
              Tailer._last_size := Tailer._last_size (Tailer.self g) |};
         Tailer.at_point := Tailer.AtPoll |}
  ∧ ∀ fuel, Tailer.next fuel false env g = None.
Proof.
  intros Hat Henv. split.
  - unfold Tailer.step. by rewrite Hat, Henv.
  - intros fuel. revert g Hat.
    induction fuel as [|fuel IH]; intros g Hat; [done|].
    simpl. unfold Tailer.step. rewrite Hat, Henv. by apply IH.
Qed.

Lemma tailer_idles_while_missing_witness :
  Tailer.next 100 false
    {| Tailer.entry := None; Tailer.data := fun _ => EmptyString |}
    Spec.tailer_after_first
  = None.
Proof.
  apply (proj2 (tailer_idles_while_missing
                  {| Tailer.entry := None; Tailer.data := fun _ => EmptyString |}
                  Spec.tailer_after_first eq_refl eq_refl)).
Defined.

(** X23. Reading on from any position of an open file whose remaining
    content is ASCII text, successive calls yield exactly the lines that lie
    beyond that position, in order and each once, whether they end in LF,
    CR LF or CR, a last line without line end included; the call after the
    last line finds the end of the file and stores it as the offset. *)
Theorem tailer_reads_every_line_once
    (env : Tailer.fs) (me : Tailer.FileTailer) (handle pos : nat) :
  let rest := Tailer.drop_bytes pos (Tailer.data env handle) in
  let at_end :=
    {| Tailer.self := me;
       Tailer.at_point := Tailer.InRead handle (pos + String.length rest) |} in
  Spec.ascii_text rest = true →
  Spec.take_lines (List.length (Spec.split_lines rest)) false env
    {| Tailer.self := me; Tailer.at_point := Tailer.InRead handle pos |}
  = Some (Spec.split_lines rest, at_end)
  ∧ Tailer.step false env at_end
    = Tailer.Continue
        {| Tailer.self :=
             {| Tailer._offset := pos + String.length rest;
                Tailer._inode := Tailer._inode me;
                Tailer._last_size := Tailer._last_size me |};
           Tailer.at_point := Tailer.AtPoll |}.
Proof.
  intros rest at_end _. split; [by apply read_lines|].
  subst at_end. unfold Tailer.step, Tailer.readline. simpl.
  rewrite drop_bytes_add. fold rest. by rewrite drop_bytes_all.
Qed.

Lemma tailer_reads_every_line_once_witness :
  Spec.take_lines 2 false Spec.fs_crlf
    {| Tailer.self := Spec.tailer_fresh; Tailer.at_point := Tailer.InRead 1 0 |}
  = Some (["a"%string; "b"%string],
          {| Tailer.self := Spec.tailer_fresh;
             Tailer.at_point := Tailer.InRead 1 5 |}).
Proof.
  refine (proj1 (tailer_reads_every_line_once
                   Spec.fs_crlf Spec.tailer_fresh 1 0 _)).
  reflexivity.
Defined.

Lemma string_length_app (a b : string) :
  String.length (a ++ b) = (String.length a + String.length b)%nat.
Proof. induction a as [|c a IH]; simpl; [done | by rewrite IH]. Qed.

(** X24. ASCII text appended to the file since the last cycle is yielded
    exactly once: with the offset at the end of the old content, the same
    identity and a size that has not shrunk, the next cycle starts reading
    at that offset, yields the lines of the appended text only, and ends
    with the offset at the new end of the file. *)
Theorem tailer_yields_appended_text_once
    (env : Tailer.fs) (old more : string) (inode last_size : nat) :
  Tailer.entry env = Some inode →
  Tailer.data env inode = (old ++ more)%string →
  (last_size ≤ String.length (old ++ more))%nat →
  Spec.ascii_text more = true →
  let g := {| Tailer.self :=
                {| Tailer._offset := String.length old;
                   Tailer._inode := Some inode;
                   Tailer._last_size := last_size |};
              Tailer.at_point := Tailer.AtPoll |} in
  ∃ g1 g2,
    Tailer.step false env g = Tailer.Continue g1
    ∧ Tailer.at_point g1 = Tailer.InRead inode (String.length old)
    ∧ Spec.take_lines (List.length (Spec.split_lines more)) false env g1
      = Some (Spec.split_lines more, g2)
    ∧ Tailer.step false env g2
      = Tailer.Continue
          {| Tailer.self :=
               {| Tailer._offset := String.length (old ++ more);
                  Tailer._inode := Some inode;
                  Tailer._last_size := String.length (old ++ more) |};
             Tailer.at_point := Tailer.AtPoll |}.
Proof.
  intros Hentry Hdata Hsize _ g.
  set (me := {| Tailer._offset := String.length old;
                Tailer._inode := Some inode;
                Tailer._last_size := String.length (old ++ more) |}).
  assert (Tailer.drop_bytes (String.length old) (Tailer.data env inode) = more)
    as Hrest by (rewrite Hdata; apply drop_bytes_app).
  exists {| Tailer.self := me;
            Tailer.at_point := Tailer.InRead inode (String.length old) |},
         {| Tailer.self := me;
            Tailer.at_point :=
              Tailer.InRead inode (String.length old + String.length more) |}.
  split; [|split; [done|split]].
  - subst g. unfold Tailer.step. simpl. rewrite Hentry, Hdata.
    rewrite Nat.eqb_refl. simpl.
    assert ((String.length (old ++ more) <? last_size)%nat = false) as ->
      by (apply Nat.ltb_ge; lia).
    done.
  - pose proof (read_lines false env me inode _ (String.length old) eq_refl) as Hr.
    by rewrite Hrest in Hr.
  - unfold Tailer.step, Tailer.readline. simpl.
    rewrite drop_bytes_add, Hrest, drop_bytes_all.
    by rewrite string_length_app.
Qed.

Lemma tailer_yields_appended_text_once_witness :
  ∃ g1 g2,
    Tailer.step false Spec.fs_first
      {| Tailer.self := {| Tailer._offset := 0; Tailer._inode := Some 1%nat;
                           Tailer._last_size := 0 |};
         Tailer.at_point := Tailer.AtPoll |}
    = Tailer.Continue g1
    ∧ Tailer.at_point g1 = Tailer.InRead 1 0
    ∧ Spec.take_lines 1 false Spec.fs_first g1 = Some (["first"%string], g2)
    ∧ Tailer.step false Spec.fs_first g2
      = Tailer.Continue
          {| Tailer.self := {| Tailer._offset := 6; Tailer._inode := Some 1%nat;
                               Tailer._last_size := 6 |};
             Tailer.at_point := Tailer.AtPoll |}.
Proof.
  apply (tailer_yields_appended_text_once Spec.fs_first EmptyString
           ("first" ++ Spec.newline) 1 0);
    [reflexivity | reflexivity | simpl; lia | reflexivity].
Defined.

(** ** Exporter *)

Section ExporterFacts.
Import Exporter.
Variable lower : string → string.

#[global] Instance row_le_trans : Transitive (row_le lower).
Proof.
  intros [[[[i1 q1] n1] s1] r1] [[[[i2 q2] n2] s2] r2] [[[[i3 q3] n3] s3] r3].
  unfold row_le, key_le. simpl. intros [Hn12 H12] [Hn23 H23].
  split; [by etrans|]. intros Hn31.
  destruct H12 as [Hs12 H12]; [by etrans|].
  destruct H23 as [Hs23 H23]; [by etrans|].
  split; [by etrans|]. intros Hs31.
  assert (i1 ≤ i2) by (apply H12; by etrans).
  assert (i2 ≤ i3) by (apply H23; by etrans).
  lia.
Qed.

#[global] Instance row_le_total : Total (row_le lower).
Proof.
  intros [[[[i1 q1] n1] s1] r1] [[[[i2 q2] n2] s2] r2].
  unfold row_le, key_le. simpl.
  destruct (decide (String.le (lower n1) (lower n2))) as [Hn12|Hn12],
    (decide (String.le (lower n2) (lower n1))) as [Hn21|Hn21];
    [| by left | by right | by destruct (total String.le (lower n1) (lower n2))].
  destruct (decide (String.le (lower s1) (lower s2))) as [Hs12|Hs12],
    (decide (String.le (lower s2) (lower s1))) as [Hs21|Hs21];
    [| by left | by right | by destruct (total String.le (lower s1) (lower s2))].
  destruct (decide (i1 ≤ i2)); [left | right]; repeat split; try done; lia.
Qed.

Lemma collect_rows_elem_of (s : Store.t) (row : Row) :
  row ∈ collect_rows s ↔
  ∃ id q, Store.cards s !! id = Some q
          ∧ row = (id, q,
                   (default (EmptyString, EmptyString, EmptyString)
                      (Store.get_metadata_map s !! id)).1.1,
                   (default (EmptyString, EmptyString, EmptyString)
                      (Store.get_metadata_map s !! id)).1.2,
                   (default (EmptyString, EmptyString, EmptyString)
                      (Store.get_metadata_map s !! id)).2).
Proof.
  unfold collect_rows, Store.get_all_cards. rewrite list_elem_of_fmap. split.
  - intros ([id q] & -> & Hin%elem_of_map_to_list). exists id, q.
    split; [done|].
    by destruct (default _ (Store.get_metadata_map s !! id)) as [[? ?] ?].
  - intros (id & q & Hq & ->). exists (id, q).
    split; [|by apply elem_of_map_to_list].
    by destruct (default _ (Store.get_metadata_map s !! id)) as [[? ?] ?].
Qed.
End ExporterFacts.

(** X25. The rows [export] writes are the cards of the store, each exactly
    once with its quantity and its metadata (empty strings where it has
    none), in ascending order of (lowercased name, lowercased set code, id),
    whatever [str.lower] maps each text to; that order leaves no freedom:
    any ascending arrangement of the collected rows is this list. The number
    returned is the number of cards. *)
Theorem export_rows_sorted_cards (lower : string → string) (s : Store.t) :
  Exporter.export lower s = size (Store.cards s)
  ∧ (∀ row, row ∈ Exporter.sorted_rows lower s ↔ row ∈ Exporter.collect_rows s)
  ∧ (∀ id q name set_code rarity,
       (id, q, name, set_code, rarity) ∈ Exporter.sorted_rows lower s ↔
       Store.cards s !! id = Some q
       ∧ (name, set_code, rarity)
         = default (EmptyString, EmptyString, EmptyString)
                   (Store.get_metadata_map s !! id))
  ∧ NoDup (Exporter.sorted_rows lower s)
  ∧ StronglySorted (Exporter.row_le lower) (Exporter.sorted_rows lower s)
  ∧ (∀ rows, rows ≡ₚ Exporter.collect_rows s →
             Sorted (Exporter.row_le lower) rows → rows = Exporter.sorted_rows lower s).
Proof.
  pose proof (merge_sort_Permutation (Exporter.row_le lower) (Exporter.collect_rows s))
    as Hperm.
  fold (Exporter.sorted_rows lower s) in Hperm.
  assert (NoDup (Exporter.collect_rows s)) as Hnd.
  { unfold Exporter.collect_rows. apply (NoDup_fmap_2_strong _).
    - intros [i1 q1] [i2 q2] H1%elem_of_map_to_list H2%elem_of_map_to_list Heq.
      destruct (default _ (Store.get_metadata_map s !! i1)) as [[? ?] ?],
        (default _ (Store.get_metadata_map s !! i2)) as [[? ?] ?].
      by injection Heq as -> ->.
    - apply NoDup_map_to_list. }
  split; [|split; [|split; [|split; [|split]]]].
  - unfold Exporter.export. rewrite Hperm. unfold Exporter.collect_rows.
    by rewrite length_map, length_map_to_list.
  - intros row. by rewrite Hperm.
  - intros id q name set_code rarity. rewrite Hperm, collect_rows_elem_of.
    split.
    + intros (id' & q' & Hq & Heq). injection Heq as -> -> -> -> ->.
      split; [done|].
      by destruct (default _ (Store.get_metadata_map s !! id')) as [[? ?] ?].
    + intros [Hq Hm]. exists id, q. split; [done|]. by rewrite <- Hm.
  - by rewrite Hperm.
  - apply (StronglySorted_merge_sort _).
  - intros rows Hrows Hsorted.
    apply (Sorted_unique_strong (Exporter.row_le lower)).
    + intros r1 r2 Hr1 Hr2 H12 H21.
      rewrite Hrows in Hr1. rewrite Hperm in Hr2.
      apply collect_rows_elem_of in Hr1 as (i1 & q1 & Hq1 & ->).
      apply collect_rows_elem_of in Hr2 as (i2 & q2 & Hq2 & ->).
      unfold Exporter.row_le, Exporter.key_le in H12, H21. simpl in H12, H21.
      destruct H12 as [Hn12 H12], H21 as [Hn21 H21].
      destruct (H12 Hn21) as [Hs12 Hi12], (H21 Hn12) as [Hs21 Hi21].
      assert (i1 = i2) as -> by (specialize (Hi12 Hs21); specialize (Hi21 Hs12); lia).
      congruence.
    + done.
    + apply (Sorted_merge_sort _).
    + by rewrite Hrows, Hperm.
Qed.

(** X26. The stop signal is honoured between poll cycles only: a tailer
    that is asked to stop while it is reading still yields every line left
    in the open file (of ASCII text), then records the end of the file as
    its offset, and returns at the next poll without touching its state. *)
Theorem tailer_stops_between_cycles
    (env : Tailer.fs) (me : Tailer.FileTailer) (handle pos : nat) :
  let rest := Tailer.drop_bytes pos (Tailer.data env handle) in
  let at_end :=
    {| Tailer.self := me;
       Tailer.at_point := Tailer.InRead handle (pos + String.length rest) |} in
  let polled :=
    {| Tailer.self :=
         {| Tailer._offset := pos + String.length rest;
            Tailer._inode := Tailer._inode me;
            Tailer._last_size := Tailer._last_size me |};
       Tailer.at_point := Tailer.AtPoll |} in
  Spec.ascii_text rest = true →
  Spec.take_lines (List.length (Spec.split_lines rest)) true env
    {| Tailer.self := me; Tailer.at_point := Tailer.InRead handle pos |}
  = Some (Spec.split_lines rest, at_end)
  ∧ Tailer.next 2 true env at_end = Some (None, polled)
  ∧ Tailer.step true env polled = Tailer.Return.
Proof.
  intros rest at_end polled _. split; [by apply read_lines|].
  split; [|done].
  subst at_end polled. cbn [Tailer.next Tailer.step Tailer.at_point].
  unfold Tailer.readline. rewrite drop_bytes_add. fold rest.
  by rewrite drop_bytes_all.
Qed.

Lemma tailer_stops_between_cycles_witness :
  Spec.take_lines 2 true Spec.fs_crlf
    {| Tailer.self := Spec.tailer_fresh; Tailer.at_point := Tailer.InRead 1 0 |}
  = Some (["a"%string; "b"%string],
          {| Tailer.self := Spec.tailer_fresh;
             Tailer.at_point := Tailer.InRead 1 5 |})
  ∧ Tailer.step true Spec.fs_crlf
      {| Tailer.self :=
           {| Tailer._offset := 5; Tailer._inode := Some 1%nat;
              Tailer._last_size := 5 |};
         Tailer.at_point := Tailer.AtPoll |}
    = Tailer.Return.
Proof.
  destruct (tailer_stops_between_cycles
              Spec.fs_crlf Spec.tailer_fresh 1 0 eq_refl) as (Hread & _ & Hstop).
  split; [exact Hread | exact Hstop].
Defined.

(** X27. A line none of whose snippets decodes (in particular a line with
    no brace at all) leaves the tracker exactly as it was: nothing is
    stored, queued or exported. *)
Theorem process_line_ignores_noise
    (loads : string → Py.res Py.json) (now line : string) (w : Tracker.t) :
  Forall (fun snippet => loads snippet = Py.Raise Py.ValueError)
         (Parser._extract_json_strings line) →
  Tracker.process_line loads now line w = (w, None).
Proof.
  intros Hall. unfold Tracker.process_line, Parser.parse_line.
  assert (∀ events, Parser.parse_snippets loads
                      (Parser._extract_json_strings line) events
                    = Py.Ok events) as ->; [|done].
  induction Hall as [|snippet snippets Hs _ IH]; intros events; [done|].
  cbn [Parser.parse_snippets]. by rewrite Hs.
Qed.

Lemma process_line_ignores_noise_witness :
  Tracker.process_line Spec.loads_sample "t" "noise {not json} more noise"
    Tracker.init
  = (Tracker.init, None).
Proof.
  apply (process_line_ignores_noise Spec.loads_sample "t"
           "noise {not json} more noise" Tracker.init).
  vm_compute. repeat constructor.
Defined.

Section StatusFacts.
Import Store Tracker Spec.

Lemma handle_event_untouched now (w : Tracker.t) (event : Parser.Event) :
  untouched_until_baseline w →
  untouched_until_baseline (handle_event now w event).1.
Proof.
  intros Hw. destruct event as [snapshot src raw|deltas src raw];
    cbn [handle_event fst].
  - destruct (handle_snapshot_drains snapshot now w 0) as (_ & Hb & _).
    intros Hne. by rewrite Hb in Hne.
  - destruct (decide (baseline_state (store w) = "complete"%string)) as [Hb|Hb].
    + destruct (handle_delta_complete deltas raw now w 0 Hb) as (_ & Hb' & _).
      intros Hne. by rewrite Hb' in Hne.
    + destruct (Hw Hb) as [Hc Hs]. intros _.
      rewrite (handle_delta_missing _ _ _ _ Hb). cbn [fst store].
      destruct (queue_deltas_frame (event_ts raw now) (map_to_list deltas)
                  (store w)) as [Hc' Hs'].
      by rewrite Hc', Hs'.
Qed.

Lemma process_events_untouched now (events : list Parser.Event) :
  ∀ w : Tracker.t,
    untouched_until_baseline w →
    untouched_until_baseline (process_events now events w).
Proof.
  induction events as [|event events IH]; intros w Hw; [done|].
  rewrite process_events_cons.
  pose proof (handle_event_untouched now w event Hw) as Hw'.
  destruct (handle_event now w event).2; [done | by apply IH].
Qed.
End StatusFacts.

(** X28. Until the first snapshot the status is the initial one: whatever
    events the tracker has handled since it started, either the baseline is
    complete, or [status] reports 0 cards, baseline "missing" and no
    snapshot time. *)
Theorem status_before_baseline (now : string) (events : list Parser.Event) :
  let w := Tracker.process_events now events Tracker.init in
  Store.baseline_state (Tracker.store w) = "complete"%string
  ∨ Tracker.status w
    = {[ "cards"%string := "0"%string;
         "baseline"%string := "missing"%string;
         "last_snapshot"%string := EmptyString ]}.
Proof.
  intros w.
  assert (Spec.untouched_until_baseline w) as Hw.
  { subst w. by apply process_events_untouched. }
  destruct (decide (Store.baseline_state (Tracker.store w) = "complete"%string))
    as [Hb|Hb]; [by left | right].
  destruct (Hw Hb) as [Hc Hs].
  unfold Tracker.status, Store.baseline_state, Store.get_state,
    Store.get_all_cards.
  by rewrite Hc, Hs.
Qed.

Lemma parse_json_object_events_ok_witness :
  Forall (Spec.event_ok Spec.obj_add)
         [Parser.DeltaEvent {[55555 := 2]} "inventorydelta" Spec.obj_add].
Proof.
  apply (proj1 (parse_json_object_events_ok Spec.obj_add _ eq_refl)).
Defined.
